(** * queuectl: the job lifecycle engine of [queuectl.py]

    A shallow embedding of the SQLite-backed job queue: the jobs table, the
    claim transaction ([acquire_job]), the completion state machine
    ([run_job]), the backoff policy ([compute_backoff]), the dead-letter
    requeue ([dlq_retry]), submission ([enqueue_job]), the control plane
    ([spawn_workers], [stop_workers]), the worker loop ([worker_loop]), the
    queries ([list_jobs], [status], [dlq_list], [config get]) and the script
    of [tests/smoke_test.py].

    Conventions of the embedding.
    - A connection in autocommit mode is a [store] threaded through a state
      and exception monad [M]; a raised exception keeps the writes already
      made, as autocommit does.  [BEGIN IMMEDIATE] ... [ROLLBACK] restores
      the snapshot taken at [BEGIN].
    - The jobs table is the list of its rows in rowid order.
    - Timestamps are the ISO-8601 UTC texts written by [utcnow]; SQLite
      orders them as text, which for these texts is chronological order.
      They are modelled by the instant they denote: microseconds since
      0001-01-01T00:00:00 as a [Z].  The range of Python's [datetime]
      (up to year 9999) is kept, since [datetime + timedelta] raises
      [OverflowError] outside it.
    - Whatever the program reads from outside (the clock, the outcome of
      the child process, the pid and uuids) is an explicit argument. *)

From Stdlib Require Import ZArith String Ascii DecimalString DecimalZ DecimalPos List Lia Bool.
From stdpp Require Import base gmap strings list sorting.

Local Open Scope string_scope.
Local Open Scope Z_scope.

(** ** Python values and exceptions *)

Inductive exn :=
| ValueError
| KeyError (key : string)
| TypeError
| OverflowError
| IntegrityError
| OperationalError
| SystemExit (code : Z)
| OtherError (name : string).

Inductive outcome (A : Type) :=
| Return (a : A)
| Raise (e : exn).
Arguments Return {A} a.
Arguments Raise {A} e.

(** [str(n)] for an int. *)
Definition py_str (n : Z) : string := NilZero.string_of_int (Z.to_int n).

(** *** [int(s)] for a str [s]

    Surrounding whitespace is stripped, one sign is allowed, then decimal
    digits, with single underscores between digits.  ASCII only: the
    Unicode digits and spaces that CPython also accepts are outside the
    model (they are rejected here).  More than 4300 digits are refused, as
    CPython does by default. *)

Definition is_py_space (c : ascii) : bool :=
  let n := N_of_ascii c in
  ((9 <=? n) && (n <=? 13) || (n =? 32))%N.

Definition is_digit (c : ascii) : bool :=
  let n := N_of_ascii c in ((48 <=? n) && (n <=? 57))%N.

Definition digit_value (c : ascii) : Z := Z.of_N (N_of_ascii c) - 48.

Fixpoint lstrip (l : list ascii) : list ascii :=
  match l with
  | c :: l' => if is_py_space c then lstrip l' else l
  | [] => []
  end.

Definition strip (l : list ascii) : list ascii :=
  rev (lstrip (rev (lstrip l))).

Fixpoint digits_value (acc : Z) (after_digit : bool) (l : list ascii) : option Z :=
  match l with
  | [] => if after_digit then Some acc else None
  | c :: l' =>
      if is_digit c then digits_value (10 * acc + digit_value c) true l'
      else if Ascii.eqb c "_"%char && after_digit then digits_value acc false l'
      else None
  end.

Definition max_str_digits : nat := 4300.

Definition unsigned_value (l : list ascii) : option Z :=
  if (max_str_digits <? length (List.filter is_digit l))%nat then None
  else digits_value 0 false l.

Definition py_int_of_string (s : string) : outcome Z :=
  let body :=
    match strip (list_ascii_of_string s) with
    | "-"%char :: l => Z.opp <$> unsigned_value l
    | "+"%char :: l => unsigned_value l
    | l => unsigned_value l
    end in
  match body with
  | Some z => Return z
  | None => Raise ValueError
  end.

(** A value that may reach [int(...)]: an int already, a str, or [None]. *)
Inductive pyval :=
| PyInt (z : Z)
| PyStr (s : string)
| PyNone.

Definition py_int (v : pyval) : outcome Z :=
  match v with
  | PyInt z => Return z
  | PyStr s => py_int_of_string s
  | PyNone => Raise TypeError
  end.

(** ** Time *)

Abbreviation timestamp := Z (only parsing).

Definition US_PER_SECOND : Z := 1000000.
Definition SECONDS_PER_DAY : Z := 86400.
(** [datetime.max] is 9999-12-31T23:59:59.999999, day 3652059 of the calendar. *)
Definition DATETIME_MAX : timestamp := 3652059 * SECONDS_PER_DAY * US_PER_SECOND - 1.
Definition TIMEDELTA_MAX_DAYS : Z := 999999999.

Definition valid_datetime (t : timestamp) : bool := (0 <=? t) && (t <=? DATETIME_MAX).

(** [t + dt.timedelta(seconds=delay)]: both the construction of the
    timedelta and the addition raise [OverflowError] out of range. *)
Definition datetime_add_seconds (t : timestamp) (delay : Z) : outcome timestamp :=
  let days := delay / SECONDS_PER_DAY in
  if (days <? - TIMEDELTA_MAX_DAYS) || (TIMEDELTA_MAX_DAYS <? days) then Raise OverflowError
  else
    let t' := t + delay * US_PER_SECOND in
    if valid_datetime t' then Return t' else Raise OverflowError.

(** ** The schema *)

Inductive job_state := Pending | Processing | Completed | Failed | Dead.

Global Instance job_state_eq_dec : EqDecision job_state.
Proof. solve_decision. Defined.

Definition state_name (st : job_state) : string :=
  match st with
  | Pending => "pending"
  | Processing => "processing"
  | Completed => "completed"
  | Failed => "failed"
  | Dead => "dead"
  end.

(** The CHECK constraint of the [state] column. *)
Definition state_of_name (s : string) : option job_state :=
  if String.eqb s "pending" then Some Pending
  else if String.eqb s "processing" then Some Processing
  else if String.eqb s "completed" then Some Completed
  else if String.eqb s "failed" then Some Failed
  else if String.eqb s "dead" then Some Dead
  else None.

(** A row of [jobs].  [id TEXT PRIMARY KEY] is not [NOT NULL]: SQLite
    admits NULL there, hence the option. *)
Record job := mkJob {
  id : option string;
  command : string;
  state : job_state;
  attempts : Z;
  max_retries : Z;
  created_at : timestamp;
  updated_at : timestamp;
  last_error : option string;
  next_run_at : option timestamp;
  locked_by : option string;
  locked_at : option timestamp;
  priority : Z;
  return_code : option Z;
  stdout : option string;
  stderr : option string;
  duration_ms : option Z
}.

Inductive worker_status := Starting | Idle | Busy | Stopping | Stopped.

Record worker := mkWorker {
  started_at : timestamp;
  last_seen_at : timestamp;
  status : worker_status;
  current_job_id : option string
}.

Record store := mkStore {
  jobs : list job;
  config : gmap string string;
  workers : gmap string worker;
  control : gmap string string
}.

Definition with_jobs (f : list job → list job) (s : store) : store :=
  mkStore (f (jobs s)) (config s) (workers s) (control s).
Definition with_config (f : gmap string string → gmap string string) (s : store) : store :=
  mkStore (jobs s) (f (config s)) (workers s) (control s).
Definition with_workers (f : gmap string worker → gmap string worker) (s : store) : store :=
  mkStore (jobs s) (config s) (f (workers s)) (control s).
Definition with_control (f : gmap string string → gmap string string) (s : store) : store :=
  mkStore (jobs s) (config s) (workers s) (f (control s)).

(** ** The connection monad *)

Definition M (A : Type) : Type := store → outcome A * store.

Definition ret {A} (a : A) : M A := λ s, (Return a, s).
Definition raise {A} (e : exn) : M A := λ s, (Raise e, s).
Definition bind {A B} (m : M A) (k : A → M B) : M B :=
  λ s, match m s with
       | (Return a, s') => k a s'
       | (Raise e, s') => (Raise e, s')
       end.
Definition get : M store := λ s, (Return s, s).
Definition put (s' : store) : M unit := λ _, (Return tt, s').
Definition modify (f : store → store) : M unit := λ s, (Return tt, f s).
Definition lift {A} (o : outcome A) : M A := λ s, (o, s).

Notation "'do' x <- m ; k" := (bind m (λ x, k))
  (at level 10, x name, m at level 100, k at level 200, only parsing).
Notation "m ;; k" := (bind m (λ _, k))
  (at level 100, k at level 200, right associativity, only parsing).

(** ** SQL fragments over the jobs table *)

(** [id = ?]: a comparison with NULL on either side is not true. *)
Definition sql_eq (a b : option string) : bool :=
  match a, b with
  | Some x, Some y => String.eqb x y
  | _, _ => false
  end.

(** [state IN ('pending','failed')] *)
Definition claimable (st : job_state) : bool :=
  match st with
  | Pending | Failed => true
  | _ => false
  end.

(** [next_run_at IS NULL OR next_run_at <= ?] *)
Definition due (now : timestamp) (j : job) : bool :=
  match next_run_at j with
  | None => true
  | Some t => t <=? now
  end.

Definition eligible (now : timestamp) (j : job) : bool :=
  claimable (state j) && due now j.

(** [ORDER BY priority DESC, created_at]: [a] sorts strictly before [b]. *)
Definition before (a b : job) : bool :=
  (priority b <? priority a)
  || (priority a =? priority b) && (created_at a <? created_at b).

(** [LIMIT 1] of the ordered rows; rows that tie keep rowid order. *)
Fixpoint first_row (best : job) (l : list job) : job :=
  match l with
  | [] => best
  | j :: l' => first_row (if before j best then j else best) l'
  end.

Definition select_claimable (now : timestamp) (tbl : list job) : option job :=
  match List.filter (eligible now) tbl with
  | [] => None
  | j :: l => Some (first_row j l)
  end.

(** [UPDATE jobs SET ... WHERE <p>]: the new table and [rowcount]. *)
Definition sql_update (p : job → bool) (f : job → job) (tbl : list job) : list job :=
  map (λ j, if p j then f j else j) tbl.
Definition rowcount (p : job → bool) (tbl : list job) : nat :=
  length (List.filter p tbl).

(** [SELECT ... WHERE id=?] then [fetchone()] *)
Definition fetch_by_id (job_id : option string) (tbl : list job) : option job :=
  List.find (λ j, sql_eq (id j) job_id) tbl.

(** ** Schema creation and configuration *)

(** [INSERT OR IGNORE INTO t(key,value)] *)
Definition insert_or_ignore (k v : string) (m : gmap string string) : gmap string string :=
  match m !! k with
  | Some _ => m
  | None => <[k:=v]> m
  end.

(** [UPDATE t SET value=? WHERE key=?] *)
Definition update_value (k v : string) (m : gmap string string) : gmap string string :=
  alter (λ _, v) k m.

Definition ensure_db : M unit :=
  modify (with_config (insert_or_ignore "backoff_base" "2"));;
  modify (with_config (insert_or_ignore "max_retries_default" "3"));;
  modify (with_config (insert_or_ignore "job_timeout_sec" "0"));;
  modify (with_control (insert_or_ignore "shutdown" "0")).

Definition get_config (key : string) : M string :=
  do s <- get;
  match config s !! key with
  | Some v => ret v
  | None => raise (KeyError key)
  end.

Definition set_config (key value : string) : M unit :=
  modify (with_config <[key:=value]>).

(** ** Claim *)

Definition claim_guard (job_id : option string) (j : job) : bool :=
  sql_eq (id j) job_id && claimable (state j).

(** [SET state='processing', locked_by=?, locked_at=?, updated_at=?] *)
Definition set_processing (worker_id : string) (now : timestamp) (j : job) : job :=
  mkJob (id j) (command j) Processing (attempts j) (max_retries j)
        (created_at j) now (last_error j) (next_run_at j)
        (Some worker_id) (Some now) (priority j)
        (return_code j) (stdout j) (stderr j) (duration_ms j).

(** [acquire_job(conn, worker_id)], with [now] the value of [utcnow()].
    The body runs between [BEGIN IMMEDIATE] and [COMMIT]/[ROLLBACK]; [s0]
    is the state [ROLLBACK] returns to.  On the last path [COMMIT] comes
    before [dict(job)]: were the row missing, [dict(None)] would raise
    [TypeError] after the commit, and the [ROLLBACK] of the handler, with
    no transaction open, [OperationalError] in its place. *)
Definition acquire_job (worker_id : string) (now : timestamp) : M (option job) :=
  do s0 <- get;
  match select_claimable now (jobs s0) with
  | None => ret None
  | Some row =>
      let job_id := id row in
      let up := rowcount (claim_guard job_id) (jobs s0) in
      modify (with_jobs (sql_update (claim_guard job_id) (set_processing worker_id now)));;
      if negb (up =? 1)%nat then
        put s0;; ret None
      else
        do s1 <- get;
        match fetch_by_id job_id (jobs s1) with
        | Some j => ret (Some j)
        | None => raise OperationalError
        end
  end.

(** ** Backoff *)

(** The [try] computes [int(base) ** int(max(attempts,0))]; when [int(base)]
    raises, the handler computes [2 ** int(max(attempts,0))]. *)
Definition compute_backoff (base : pyval) (attempts : Z) : Z :=
  match py_int base with
  | Return b => b ^ Z.max attempts 0
  | Raise _ => 2 ^ Z.max attempts 0
  end.

(** ** Execution of one attempt *)

(** What [capture_output] holds when the child is abandoned at a timeout:
    nothing, text, or raw bytes ([TimeoutExpired] carries undecoded bytes
    on POSIX even under [text=True]). *)
Inductive captured :=
| NoOutput
| Str (s : string)
| Bytes (b : string).

(** How the child process ends; decided by the environment.  [run_job]
    passes [timeout=None] when [job_timeout_sec] is 0, so [TimedOut] can
    only arise under another setting. *)
Inductive proc_outcome :=
| Exited (rc : Z) (out err : string)
| TimedOut (out err : captured)
| Faulted (e : exn).

Definition has_nul (s : string) : bool :=
  existsb (Ascii.eqb Ascii.zero) (list_ascii_of_string s).

Inductive run_result :=
| Completed_process (rc : Z) (out err : string)
| Timeout_expired (out err : captured)
| Run_raised (e : exn).

(** [subprocess.run(command, shell=True, capture_output=True, text=True,
    timeout=...)].  A NUL in the command line is refused with [ValueError]
    before any process is created. *)
Definition subprocess_run (cmd : string) (o : proc_outcome) : run_result :=
  if has_nul cmd then Run_raised ValueError
  else match o with
       | Exited rc out err => Completed_process rc out err
       | TimedOut out err => Timeout_expired out err
       | Faulted e => Run_raised e
       end.

(** [x or ""] *)
Definition or_empty (c : captured) : captured :=
  match c with
  | NoOutput | Str "" | Bytes "" => Str ""
  | _ => c
  end.

(** [x + s] for a str [s]; bytes and str do not concatenate. *)
Definition add_str (c : captured) (s : string) : outcome string :=
  match c with
  | Str a => Return (a ++ s)
  | _ => Raise TypeError
  end.

Definition captured_bytes (c : captured) : string :=
  match c with
  | NoOutput => ""
  | Str s | Bytes s => s
  end.

Record execution_result := mkResult {
  res_rc : Z;
  res_stdout : string;
  res_stderr : string
}.

(** Lines 220-228 of [run_job]: the [try] around [subprocess.run]. *)
Definition execute (cmd : string) (job_timeout : Z) (o : proc_outcome)
  : outcome execution_result :=
  match subprocess_run cmd o with
  | Completed_process rc out err => Return (mkResult rc out err)
  | Timeout_expired out err =>
      let stdout := captured_bytes (or_empty out) in
      match add_str (or_empty err) ("TIMEOUT after " ++ py_str job_timeout ++ "s") with
      | Return stderr => Return (mkResult (-1) stdout stderr)
      | Raise e => Raise e
      end
  | Run_raised e => Raise e
  end.

(** ** Completion of an attempt *)

Definition INT64_MIN : Z := - 2 ^ 63.
Definition INT64_MAX : Z := 2 ^ 63 - 1.

Definition is_int64 (z : Z) : bool := (INT64_MIN <=? z) && (z <=? INT64_MAX).

(** Binding Python ints as statement parameters: an int outside the
    64-bit range of an SQLite INTEGER raises [OverflowError]. *)
Definition bind_ints (l : list Z) : M unit :=
  if forallb is_int64 l then ret tt else raise OverflowError.

(** [WHERE id=?] *)
Definition has_id (job_id : option string) (j : job) : bool := sql_eq (id j) job_id.

Definition exit_code_message (rc : Z) : string := "Exit code " ++ py_str rc.

(** [SET state='completed', attempts=attempts, return_code=?, stdout=?,
    stderr=?, duration_ms=?, updated_at=?, locked_by=NULL, locked_at=NULL] *)
Definition set_completed (r : execution_result) (ms : Z) (now2 : timestamp) (j : job) : job :=
  mkJob (id j) (command j) Completed (attempts j) (max_retries j)
        (created_at j) now2 (last_error j) (next_run_at j)
        None None (priority j)
        (Some (res_rc r)) (Some (res_stdout r)) (Some (res_stderr r)) (Some ms).

(** [SET state='dead', attempts=?, last_error=?, return_code=?, stdout=?,
    stderr=?, duration_ms=?, updated_at=?, locked_by=NULL, locked_at=NULL] *)
Definition set_dead (n : Z) (r : execution_result) (ms : Z) (now2 : timestamp) (j : job) : job :=
  mkJob (id j) (command j) Dead n (max_retries j)
        (created_at j) now2 (Some (exit_code_message (res_rc r))) (next_run_at j)
        None None (priority j)
        (Some (res_rc r)) (Some (res_stdout r)) (Some (res_stderr r)) (Some ms).

(** [SET state='failed', attempts=?, last_error=?, return_code=?, stdout=?,
    stderr=?, duration_ms=?, next_run_at=?, updated_at=?, locked_by=NULL,
    locked_at=NULL] *)
Definition set_failed (n : Z) (r : execution_result) (ms : Z) (next_run now2 : timestamp)
    (j : job) : job :=
  mkJob (id j) (command j) Failed n (max_retries j)
        (created_at j) now2 (Some (exit_code_message (res_rc r))) (Some next_run)
        None None (priority j)
        (Some (res_rc r)) (Some (res_stdout r)) (Some (res_stderr r)) (Some ms).

Definition set_busy (job_id : option string) (now : timestamp) (w : worker) : worker :=
  mkWorker (started_at w) now Busy job_id.
Definition set_idle (now : timestamp) (w : worker) : worker :=
  mkWorker (started_at w) now Idle None.

(** What one call of [run_job] reads from outside the store, in program
    order: [utcnow()] at entry, the fate of the child, the measured
    duration, [utcnow()] after the run ([now2]), [utcnow()] when the retry
    is scheduled, [utcnow()] when the worker goes back to idle. *)
Record attempt_env := mkEnv {
  clock_start : timestamp;
  child : proc_outcome;
  elapsed_ms : Z;
  clock_done : timestamp;
  clock_retry : timestamp;
  clock_idle : timestamp
}.

(** Lines 231-254: the three completion branches. *)
Definition complete (j : job) (backoff_base : Z) (r : execution_result) (env : attempt_env)
  : M unit :=
  let ms := elapsed_ms env in
  let now2 := clock_done env in
  if res_rc r =? 0 then
    bind_ints [res_rc r; ms];;
    modify (with_jobs (sql_update (has_id (id j)) (set_completed r ms now2)))
  else
    do s <- get;
    match fetch_by_id (id j) (jobs s) with
    | None => raise TypeError
    | Some cur =>
        let n := attempts cur + 1 in
        if max_retries cur <? n then
          bind_ints [n; res_rc r; ms];;
          modify (with_jobs (sql_update (has_id (id j)) (set_dead n r ms now2)))
        else
          let delay := compute_backoff (PyInt backoff_base) n in
          do next_run <- lift (datetime_add_seconds (clock_retry env) delay);
          bind_ints [n; res_rc r; ms];;
          modify (with_jobs (sql_update (has_id (id j)) (set_failed n r ms next_run now2)))
    end.

Definition run_job (worker_id : string) (j : job) (env : attempt_env) : M unit :=
  modify (with_workers (alter (set_busy (id j) (clock_start env)) worker_id));;
  do base_text <- get_config "backoff_base";
  do backoff_base <- lift (py_int_of_string base_text);
  do timeout_text <- get_config "job_timeout_sec";
  do job_timeout <- lift (py_int_of_string timeout_text);
  do r <- lift (execute (command j) job_timeout (child env));
  complete j backoff_base r env;;
  modify (with_workers (alter (set_idle (clock_idle env)) worker_id)).

(** ** Dead-letter requeue *)

(** [SET state='pending', attempts=0, next_run_at=NULL, last_error=NULL,
    updated_at=?] *)
Definition set_requeued (now : timestamp) (j : job) : job :=
  mkJob (id j) (command j) Pending 0 (max_retries j)
        (created_at j) now None None
        (locked_by j) (locked_at j) (priority j)
        (return_code j) (stdout j) (stderr j) (duration_ms j).

Definition is_dead (st : job_state) : bool :=
  match st with Dead => true | _ => false end.

(** [dlq_retry(job_id)]; [sys.exit(1)] after the "not found in DLQ"
    message is [SystemExit 1]. *)
Definition dlq_retry (job_id : string) (now : timestamp) : M unit :=
  ensure_db;;
  do s <- get;
  match List.find (λ j, has_id (Some job_id) j && is_dead (state j)) (jobs s) with
  | None => raise (SystemExit 1)
  | Some _ => modify (with_jobs (sql_update (has_id (Some job_id)) (set_requeued now)))
  end.

(** ** Submission *)

(** The object [json.loads] returns, for well-typed fields: [None] is an
    absent key; for ["id"], [Some None] is a JSON null. *)
Record job_request := mkRequest {
  req_id : option (option string);
  req_command : option string;
  req_state : option string;
  req_attempts : option Z;
  req_max_retries : option Z;
  req_created_at : option timestamp;
  req_updated_at : option timestamp
}.

(** [enqueue_job(job_json, priority)]; [uuid4] is [str(uuid.uuid4())].
    The INSERT lists eight columns, the others take their NULL default.
    [IntegrityError] is the CHECK on [state] or the primary key. *)
Definition enqueue_job (req : job_request) (prio : Z) (now : timestamp) (uuid4 : string)
  : M unit :=
  ensure_db;;
  let jid := default (Some uuid4) (req_id req) in
  let st := default "pending" (req_state req) in
  let att := default 0 (req_attempts req) in
  let mr := default 3 (req_max_retries req) in
  let cr := default now (req_created_at req) in
  let up := default now (req_updated_at req) in
  match req_command req with
  | None => raise (KeyError "command")
  | Some cmd =>
      bind_ints [att; mr; prio];;
      do s <- get;
      match state_of_name st with
      | None => raise IntegrityError
      | Some st' =>
          if existsb (has_id jid) (jobs s) then raise IntegrityError
          else modify (with_jobs (λ tbl,
                 (tbl ++ [mkJob jid cmd st' att mr cr up None None None None prio
                                None None None None])%list))
      end
  end.

(** ** Control plane *)

(** A started worker process, with the shutdown flag as the store held it
    when [Popen] was called. *)
Record spawned := mkSpawned {
  spawned_id : string;
  spawned_flag : option string
}.

Definition popen (worker_id : string) : M spawned :=
  do s <- get; ret (mkSpawned worker_id (control s !! "shutdown")).

(** [f"{os.getpid()}-{i}-{uuid.uuid4().hex[:8]}"] *)
Definition worker_name (pid i : Z) (hex8 : string) : string :=
  py_str pid ++ "-" ++ py_str i ++ "-" ++ hex8.

(** [for i in range(count)], from [i] on, [n] rounds left. *)
Fixpoint spawn_loop (pid : Z) (hex : Z → string) (i : Z) (n : nat) : M (list spawned) :=
  match n with
  | O => ret []
  | S n' =>
      do p <- popen (worker_name pid i (hex i));
      do ps <- spawn_loop pid hex (i + 1) n';
      ret (p :: ps)
  end.

Definition spawn_workers (count : Z) (pid : Z) (hex : Z → string) : M (list spawned) :=
  ensure_db;;
  modify (with_control (update_value "shutdown" "0"));;
  spawn_loop pid hex 0 (Z.to_nat count).

Definition stop_workers : M unit :=
  ensure_db;;
  modify (with_control (update_value "shutdown" "1")).

(** ** Well-formed tables *)

(** The primary key: the non-NULL ids of the table are pairwise distinct.
    (SQLite lets any number of rows carry a NULL id.) *)
Definition unique_ids (tbl : list job) : Prop := NoDup (omap id tbl).

(** [a] sorts strictly before [b], as a proposition. *)
Definition sorts_before (a b : job) : Prop :=
  priority b < priority a ∨ (priority a = priority b ∧ created_at a < created_at b).

(** ** Concurrent claims

    Several workers run [acquire_job] against one store.  Each statement
    of the function is one step of the worker that executes it, and a
    schedule interleaves the steps of the workers at will.  The only
    synchronisation is the write lock of the store: [BEGIN IMMEDIATE]
    succeeds when no other connection holds it, waits otherwise, and
    raises [OperationalError] when the busy timeout ends the wait. *)

(** Where a worker stands inside [acquire_job]. *)
Inductive phase :=
| Waiting (now : timestamp)
| Selecting (now : timestamp) (s0 : store)
| Updating (now : timestamp) (s0 : store) (job_id : option string)
| Fetching (job_id : option string).

Record system := mkSystem {
  db : store;
  writer : option string;
  calls : gmap string phase;
  returned : list (string * option job);
  raised : list (string * exn)
}.

Inductive event :=
| Tick (worker_id : string) (clock : timestamp)
| BusyTimeout (worker_id : string).

(** [COMMIT] or [ROLLBACK] to [db'], then [return result]. *)
Definition finish (w : string) (result : option job) (db' : store) (σ : system) : system :=
  mkSystem db' None (delete w (calls σ)) ((w, result) :: returned σ) (raised σ).

(** The transaction ends on [db'], then [raise e]. *)
Definition abort (w : string) (e : exn) (db' : store) (σ : system) : system :=
  mkSystem db' None (delete w (calls σ)) (returned σ) ((w, e) :: raised σ).

(** [raise e] out of a [BEGIN IMMEDIATE] that never got the lock. *)
Definition busy_timeout (w : string) (e : exn) (σ : system) : system :=
  mkSystem (db σ) (writer σ) (delete w (calls σ)) (returned σ) ((w, e) :: raised σ).

Definition move (w : string) (ph : phase) (σ : system) : system :=
  mkSystem (db σ) (writer σ) (<[w := ph]> (calls σ)) (returned σ) (raised σ).

Definition step (e : event) (σ : system) : system :=
  match e with
  | Tick w clock =>
      match calls σ !! w with
      | None => move w (Waiting clock) σ
      | Some (Waiting now) =>
          match writer σ with
          | None =>
              mkSystem (db σ) (Some w) (<[w := Selecting now (db σ)]> (calls σ))
                       (returned σ) (raised σ)
          | Some _ => σ
          end
      | Some (Selecting now s0) =>
          match select_claimable now (jobs (db σ)) with
          | None => finish w None (db σ) σ
          | Some row => move w (Updating now s0 (id row)) σ
          end
      | Some (Updating now s0 job_id) =>
          let up := rowcount (claim_guard job_id) (jobs (db σ)) in
          let db' := with_jobs (sql_update (claim_guard job_id) (set_processing w now))
                       (db σ) in
          if negb (up =? 1)%nat then finish w None s0 σ
          else mkSystem db' (writer σ) (<[w := Fetching job_id]> (calls σ))
                        (returned σ) (raised σ)
      | Some (Fetching job_id) =>
          match fetch_by_id job_id (jobs (db σ)) with
          | Some j => finish w (Some j) (db σ) σ
          | None => abort w OperationalError (db σ) σ
          end
      end
  | BusyTimeout w =>
      match calls σ !! w, writer σ with
      | Some (Waiting _), Some _ => busy_timeout w OperationalError σ
      | _, _ => σ
      end
  end.

Definition run (schedule : list event) (σ : system) : system :=
  foldl (λ σ e, step e σ) σ schedule.

Definition initial (s : store) : system := mkSystem s None ∅ [] [].

(** The ids of the jobs handed out so far. *)
Definition returned_ids (σ : system) : list string :=
  omap (λ wr, snd wr ≫= id) (returned σ).

(** ** The body of the poll loop

    Lines 288-293 of [worker_loop]: claim a job and, when there is one,
    run it.  [now] is the clock [acquire_job] reads. *)
Definition attempt_cycle (worker_id : string) (now : timestamp) (env : attempt_env)
  : M (option job) :=
  do claimed <- acquire_job worker_id now;
  match claimed with
  | None => ret None
  | Some j => run_job worker_id j env;; ret (Some j)
  end.

(** A sequence of poll cycles of one worker, each with the clock of its
    claim and what its attempt reads from outside. *)
Fixpoint attempt_cycles (worker_id : string) (envs : list (timestamp * attempt_env))
  : M unit :=
  match envs with
  | [] => ret tt
  | (now, env) :: rest =>
      attempt_cycle worker_id now env;; attempt_cycles worker_id rest
  end.

(** The store holds the one job [j], with id [k] and retry limit [r], and
    a numeric configuration: base [b], timeout [t]. *)
Definition holds_job (k : string) (b r t : Z) (s : store) (j : job) : Prop :=
  jobs s = [j] ∧ id j = Some k ∧ max_retries j = r ∧ has_nul (command j) = false
  ∧ (∃ text, config s !! "backoff_base" = Some text ∧ py_int_of_string text = Return b)
  ∧ (∃ text, config s !! "job_timeout_sec" = Some text
             ∧ py_int_of_string text = Return t).

(** [failing_run b r n next envs]: the cycles [envs] are successive failed
    attempts of a job that has [n] failures recorded and [next_run_at =
    next], under base [b] and retry limit [r].  Each cycle starts once
    the job is due, its command exits with a code other than 0, and the
    retry instant, when one is scheduled, is a representable datetime.
    The run ends with the attempt that exceeds the limit. *)
Inductive failing_run (b r : Z)
  : Z → option timestamp → list (timestamp * attempt_env) → Prop :=
| failing_nil n next : failing_run b r n next []
| failing_retry n next now env rest rc out err :
    (∀ t, next = Some t → t ≤ now) →
    child env = Exited rc out err → rc ≠ 0 →
    forallb is_int64 [n + 1; rc; elapsed_ms env] = true →
    n + 1 ≤ r →
    datetime_add_seconds (clock_retry env) (b ^ Z.max (n + 1) 0) ≠ Raise OverflowError →
    failing_run b r (n + 1)
      (Some (clock_retry env + b ^ Z.max (n + 1) 0 * US_PER_SECOND)) rest →
    failing_run b r n next ((now, env) :: rest)
| failing_last n next now env rc out err :
    (∀ t, next = Some t → t ≤ now) →
    child env = Exited rc out err → rc ≠ 0 →
    forallb is_int64 [n + 1; rc; elapsed_ms env] = true →
    r < n + 1 →
    failing_run b r n next [(now, env)].

(** *** The invariant of concurrent claims

    [tbl0] is the jobs table the run started from. *)

Definition processing_in (tbl : list job) (k : string) : Prop :=
  ∃ j, fetch_by_id (Some k) tbl = Some j ∧ state j = Processing.

(** A row that can be claimed in [tbl] could be claimed in [tbl0]. *)
Definition claimable_from (tbl0 tbl : list job) : Prop :=
  ∀ k j, fetch_by_id (Some k) tbl = Some j → claimable (state j) = true →
         ∃ j0, fetch_by_id (Some k) tbl0 = Some j0 ∧ claimable (state j0) = true.

Definition consistent (tbl0 : list job) (ids : list string) (tbl : list job) : Prop :=
  unique_ids tbl ∧ (∀ k, k ∈ ids → processing_in tbl k) ∧ claimable_from tbl0 tbl.

(** What holds of a job [j] handed to worker [w]. *)
Definition handed_out (tbl0 : list job) (w : string) (j : job) : Prop :=
  ∃ k j0, id j = Some k
          ∧ fetch_by_id (Some k) tbl0 = Some j0 ∧ claimable (state j0) = true
          ∧ state j = Processing ∧ locked_by j = Some w.

Definition phase_ok (tbl0 : list job) (σ : system) (w : string) (ph : phase) : Prop :=
  match ph with
  | Waiting _ => True
  | Selecting _ s0 | Updating _ s0 _ =>
      writer σ = Some w ∧ consistent tbl0 (returned_ids σ) (jobs s0)
  | Fetching job_id =>
      writer σ = Some w
      ∧ ∃ k j, job_id = Some k ∧ (k ∉ returned_ids σ)
               ∧ fetch_by_id (Some k) (jobs (db σ)) = Some j ∧ handed_out tbl0 w j
  end.

Record invariant (tbl0 : list job) (σ : system) : Prop := mkInvariant {
  inv_db : consistent tbl0 (returned_ids σ) (jobs (db σ));
  inv_nodup : NoDup (returned_ids σ);
  inv_calls : ∀ w ph, calls σ !! w = Some ph → phase_ok tbl0 σ w ph;
  inv_returned : ∀ w j, (w, Some j) ∈ returned σ → handed_out tbl0 w j
}.

(** ** Read-only queries

    [list_jobs], [dlq_list] and [status] print rows as JSON; the model
    returns the rows.  SQLite leaves the order of rows that tie under
    [ORDER BY] open; the merge sort used here is one such order. *)

(** [ORDER BY created_at] *)
Definition by_created_at (a b : job) : Prop := created_at a ≤ created_at b.
(** [ORDER BY updated_at DESC] *)
Definition by_updated_at_desc (a b : job) : Prop := updated_at b ≤ updated_at a.
(** [ORDER BY started_at], on the rows of [workers] with their key. *)
Definition by_started_at (a b : string * worker) : Prop :=
  started_at (snd a) ≤ started_at (snd b).
(** [ORDER BY key], text under the BINARY collation. *)
Definition by_key (a b : string * string) : Prop := String.leb (fst a) (fst b) = true.

Global Instance by_created_at_dec : RelDecision by_created_at.
Proof. intros a b. unfold by_created_at. apply _. Defined.
Global Instance by_updated_at_desc_dec : RelDecision by_updated_at_desc.
Proof. intros a b. unfold by_updated_at_desc. apply _. Defined.
Global Instance by_started_at_dec : RelDecision by_started_at.
Proof. intros a b. unfold by_started_at. apply _. Defined.
Global Instance by_key_dec : RelDecision by_key.
Proof. intros a b. unfold by_key. apply _. Defined.

(** [LIMIT ?]: a negative limit is no limit. *)
Definition sql_limit {A} (limit : Z) (l : list A) : list A :=
  if limit <? 0 then l else take (Z.to_nat limit) l.

(** [WHERE state=?] with a text parameter. *)
Definition in_state (name : string) (j : job) : bool :=
  String.eqb (state_name (state j)) name.

(** [list_jobs(state, limit)]; [if state:] is false for [None] and for
    the empty string. *)
Definition list_jobs (state_filter : option string) (limit : Z) : M (list job) :=
  ensure_db;;
  bind_ints [limit];;
  do s <- get;
  let rows :=
    match state_filter with
    | None | Some "" => jobs s
    | Some name => List.filter (in_state name) (jobs s)
    end in
  ret (sql_limit limit (merge_sort by_created_at rows)).

(** [dlq_list(limit)] *)
Definition dlq_list (limit : Z) : M (list job) :=
  ensure_db;;
  bind_ints [limit];;
  do s <- get;
  ret (sql_limit limit
         (merge_sort by_updated_at_desc (List.filter (in_state "dead") (jobs s)))).

Definition all_states : list job_state := [Pending; Processing; Completed; Failed; Dead].

Record status_report := mkReport {
  report_jobs : list (string * nat);
  report_workers : list (string * worker);
  report_shutdown : string
}.

(** [status()]; [fetchone()[0]] on the control row raises [TypeError]
    when the row is missing. *)
Definition status_cmd : M status_report :=
  ensure_db;;
  do s <- get;
  let counts :=
    map (λ st, (state_name st,
                length (List.filter (in_state (state_name st)) (jobs s)))) all_states in
  let w := merge_sort by_started_at (map_to_list (workers s)) in
  match control s !! "shutdown" with
  | Some shutdown => ret (mkReport counts w shutdown)
  | None => raise TypeError
  end.

(** ** The [config] command *)

(** [config get]: with a key, the object [{key: value}], or [{key: null}]
    when [get_config] raises [KeyError]; without a key (or with the empty
    string, which [if args.key:] takes for none), every row by key. *)
Definition config_get (key : option string) : M (list (string * option string)) :=
  ensure_db;;
  match key with
  | None | Some "" =>
      do s <- get;
      ret (map (λ kv, (fst kv, Some (snd kv)))
             (merge_sort by_key (map_to_list (config s))))
  | Some k =>
      λ s, match get_config k s with
           | (Return v, s') => (Return [(k, Some v)], s')
           | (Raise (KeyError _), s') => (Return [(k, None)], s')
           | (Raise e, s') => (Raise e, s')
           end
  end.

(** [config set]: [main] has run [ensure_db] before [config_cmd]. *)
Definition config_set (key value : string) : M unit :=
  ensure_db;; set_config key value.

(** ** The worker loop *)

(** [handle_signal]: on SIGTERM or SIGINT the worker marks itself. *)
Definition handle_signal (worker_id : string) (now : timestamp) : M unit :=
  modify (with_workers
            (alter (λ r, mkWorker (started_at r) now Stopping (current_job_id r))
               worker_id)).

Definition set_status (st : worker_status) (now : timestamp) (r : worker) : worker :=
  mkWorker (started_at r) now st (current_job_id r).

Definition is_stopping (st : worker_status) : bool :=
  match st with Stopping => true | _ => false end.

(** What one iteration reads from outside: the clock of the status write
    (stopped, or the heartbeat), the clock of [acquire_job], and what
    [run_job] reads. *)
Record tick_env := mkTick {
  clock_poll : timestamp;
  clock_claim : timestamp;
  attempt : attempt_env
}.

Inductive tick_result := Continue | Break.

(** The body of [while True:].  A worker without a row counts as
    "stopped", which does not end the loop. *)
Definition worker_tick (worker_id : string) (e : tick_env) : M tick_result :=
  do s <- get;
  match control s !! "shutdown" with
  | None => raise TypeError
  | Some shutdown =>
      let cur_status :=
        match workers s !! worker_id with
        | Some r => status r
        | None => Stopped
        end in
      if is_stopping cur_status || String.eqb shutdown "1" then
        modify (with_workers (alter (set_status Stopped (clock_poll e)) worker_id));;
        ret Break
      else
        modify (with_workers (alter (set_status Idle (clock_poll e)) worker_id));;
        do claimed <- acquire_job worker_id (clock_claim e);
        match claimed with
        | None => ret Continue
        | Some j => run_job worker_id j (attempt e);; ret Continue
        end
  end.

(** The loop, observed for the iterations [envs] describes: [Break] when
    it has left the loop, [Continue] when it is still polling. *)
Fixpoint poll_loop (worker_id : string) (envs : list tick_env) : M tick_result :=
  match envs with
  | [] => ret Continue
  | e :: rest =>
      do r <- worker_tick worker_id e;
      match r with
      | Break => ret Break
      | Continue => poll_loop worker_id rest
      end
  end.

(** [worker_loop(worker_id)]: [INSERT OR REPLACE] of the worker's row,
    with two readings of the clock, then the loop. *)
Definition worker_loop (worker_id : string) (started seen : timestamp)
    (envs : list tick_env) : M tick_result :=
  ensure_db;;
  modify (with_workers <[worker_id := mkWorker started seen Starting None]>);;
  poll_loop worker_id envs.

(** Worker [w] holds a job: a row in processing that it has locked. *)
Definition holds (w : string) (tbl : list job) : Prop :=
  ∃ j, j ∈ tbl ∧ state j = Processing ∧ locked_by j = Some w.

(** What each of the three completion UPDATEs does to a row: it ends the
    attempt and keeps what identifies the job. *)
Definition ends_attempt (before after : job) : Prop :=
  id after = id before ∧ command after = command before
  ∧ max_retries after = max_retries before ∧ priority after = priority before
  ∧ created_at after = created_at before
  ∧ (state after = Completed ∨ state after = Failed ∨ state after = Dead)
  ∧ locked_by after = None ∧ locked_at after = None.

(** The row [enqueue_job] inserts. *)
Definition new_row (req : job_request) (prio : Z) (now : timestamp) (uuid4 : string)
    (cmd : string) (st : job_state) : job :=
  mkJob (default (Some uuid4) (req_id req)) cmd st
        (default 0 (req_attempts req)) (default 3 (req_max_retries req))
        (default now (req_created_at req)) (default now (req_updated_at req))
        None None None None prio None None None None.

(** ** The smoke test

    [tests/smoke_test.py] submits one job, starts one worker and, two
    seconds later, lists the completed jobs.  [submit_work_list] is that
    script for any request; the worker is observed for one iteration of
    its loop, the clocks and the child's fate being what [e] says. *)
Definition submit_work_list (req : job_request) (prio : Z) (now : timestamp)
    (uuid4 : string) (pid : Z) (hex : Z → string) (started seen : timestamp)
    (e : tick_env) (limit : Z) : M (list job) :=
  enqueue_job req prio now uuid4;;
  spawn_workers 1 pid hex;;
  worker_loop (worker_name pid 0 (hex 0)) started seen [e];;
  list_jobs (Some "completed") limit.

(** The request, the fresh database and the assertion of the test:
    [any(j["id"]=="test_ok" for j in data)]. *)
Definition smoke_request : job_request :=
  mkRequest (Some (Some "test_ok")) (Some "echo ok") None None None None None.

Definition fresh_db : store := mkStore [] ∅ ∅ ∅.

Definition smoke_test (now : timestamp) (uuid4 : string) (pid : Z) (hex : Z → string)
    (started seen : timestamp) (e : tick_env) : outcome bool :=
  match fst (submit_work_list smoke_request 0 now uuid4 pid hex started seen e 100
               fresh_db) with
  | Return rows => Return (existsb (has_id (Some "test_ok")) rows)
  | Raise x => Raise x
  end.

(** ** Histories

    What can happen to a store over time: the commands of the CLI, in
    any order and with any arguments, and what worker processes do.  A
    worker's loop is taken as a whole, and also apart: [acquire_job] is
    one transaction, [run_job] is called on the job the worker was
    handed (here: on any job at all), and a signal reaches a worker at
    any time. *)
Inductive call :=
| Call_enqueue (req : job_request) (prio : Z) (now : timestamp) (uuid4 : string)
| Call_worker_start (count pid : Z) (hex : Z → string)
| Call_worker_stop
| Call_status
| Call_list (state_filter : option string) (limit : Z)
| Call_dlq_list (limit : Z)
| Call_dlq_retry (job_id : string) (now : timestamp)
| Call_config_set (key value : string)
| Call_config_get (key : option string)
| Call_worker_loop (worker_id : string) (started seen : timestamp) (envs : list tick_env)
| Call_acquire_job (worker_id : string) (now : timestamp)
| Call_run_job (worker_id : string) (j : job) (env : attempt_env)
| Call_signal (worker_id : string) (now : timestamp).

(** The store a call leaves, whether it returns or raises. *)
Definition after (c : call) (s : store) : store :=
  match c with
  | Call_enqueue req prio now uuid4 => snd (enqueue_job req prio now uuid4 s)
  | Call_worker_start count pid hex => snd (spawn_workers count pid hex s)
  | Call_worker_stop => snd (stop_workers s)
  | Call_status => snd (status_cmd s)
  | Call_list state_filter limit => snd (list_jobs state_filter limit s)
  | Call_dlq_list limit => snd (dlq_list limit s)
  | Call_dlq_retry job_id now => snd (dlq_retry job_id now s)
  | Call_config_set key value => snd (config_set key value s)
  | Call_config_get key => snd (config_get key s)
  | Call_worker_loop worker_id started seen envs =>
      snd (worker_loop worker_id started seen envs s)
  | Call_acquire_job worker_id now => snd (acquire_job worker_id now s)
  | Call_run_job worker_id j env => snd (run_job worker_id j env s)
  | Call_signal worker_id now => snd (handle_signal worker_id now s)
  end.

Definition history (cs : list call) (s : store) : store :=
  foldl (λ s c, after c s) s cs.

(** The columns no statement of the program writes after the INSERT. *)
Definition identity (j : job) : option string * string * Z * Z * timestamp :=
  (id j, command j, max_retries j, priority j, created_at j).

(** A call keeps the jobs: their identities as they were, followed by
    those of the rows it has added; and the primary key. *)
Definition keeps_jobs (s s' : store) : Prop :=
  identity <$> jobs s `prefix_of` identity <$> jobs s'
  ∧ (unique_ids (jobs s) → unique_ids (jobs s')).


(** A row that is not processing holds no lock. *)
Definition lock_ok (j : job) : Prop :=
  state j = Processing ∨ (locked_by j = None ∧ locked_at j = None).

(** Every [run_job] of the history is on a job that is processing when
    the call is made, as a job handed out by [acquire_job] is. *)
Fixpoint runs_claimed (cs : list call) (s : store) : Prop :=
  match cs with
  | [] => True
  | c :: rest =>
      match c with
      | Call_run_job _ j _ =>
          ∃ row, fetch_by_id (id j) (jobs s) = Some row ∧ state row = Processing
      | _ => True
      end
      ∧ runs_claimed rest (after c s)
  end.

(** The completed rows of [s] are in [s'] as they were. *)
Definition completed_kept (s s' : store) : Prop :=
  ∀ i x, jobs s !! i = Some x → state x = Completed → jobs s' !! i = Some x.

(** A call keeps the locks where the jobs are processing. *)
Definition locks_kept (s s' : store) : Prop :=
  unique_ids (jobs s) → Forall lock_ok (jobs s) → Forall lock_ok (jobs s').

(** ** Worker ids *)

(** No character of [s] is the hyphen. *)
Fixpoint no_hyphen (s : string) : bool :=
  match s with
  | EmptyString => true
  | String c rest => negb (Ascii.eqb c "-") && no_hyphen rest
  end.

(** ** Sample data *)

(** 2026-01-01T00:00:00 and one hour later. *)
Definition T0 : timestamp := 739616 * SECONDS_PER_DAY * US_PER_SECOND.
Definition T1 : timestamp := T0 + 3600 * US_PER_SECOND.

Definition sample_job (k : option string) (st : job_state) (n r prio : Z) : job :=
  mkJob k "exit 1" st n r T0 T0 None None None None prio None None None None.

Definition sample_config : gmap string string :=
  {[ "backoff_base" := "2"; "max_retries_default" := "3"; "job_timeout_sec" := "0" ]}.

Definition sample_store (tbl : list job) : store :=
  mkStore tbl sample_config ∅ {[ "shutdown" := "0" ]}.

Definition sample_env (o : proc_outcome) : attempt_env :=
  mkEnv T1 o 12 (T1 + 1) (T1 + 2) (T1 + 3).

(** A store whose configured backoff base is a million million seconds,
    with one job that a worker has claimed for its first attempt. *)
Definition huge_base_store : store :=
  with_config <["backoff_base" := "1000000000000"]>
    (sample_store [sample_job (Some "job1") Processing 0 3 0]).

(** The default base 2, and a job claimed for its 38th attempt of the 39
    that [max_retries = 38] allows. *)
Definition late_attempt_store : store :=
  sample_store [sample_job (Some "job1") Processing 37 38 0].

(** * Proofs *)

Ltac run_M :=
  unfold bind, ret, raise, get, put, modify, lift in *; simpl in *.

Section sql_facts.

Lemma sql_eq_true a b : sql_eq a b = true ↔ ∃ k, a = Some k ∧ b = Some k.
Proof.
  destruct a as [x|], b as [y|]; simpl; split; try discriminate.
  - intros H. apply String.eqb_eq in H. subst. eauto.
  - intros (k & [= ->] & [= ->]). apply String.eqb_refl.
  - intros (k & _ & [=]).
  - intros (k & [=] & _).
  - intros (k & [=] & _).
Qed.

Lemma sql_eq_None_r a : sql_eq a None = false.
Proof. by destruct a. Qed.

Lemma sql_eq_Some_refl k : sql_eq (Some k) (Some k) = true.
Proof. apply String.eqb_refl. Qed.

Lemma before_sorts a b : before a b = true ↔ sorts_before a b.
Proof. unfold before, sorts_before. lia. Qed.

Lemma before_false a b : before a b = false ↔ ¬ sorts_before a b.
Proof. rewrite <- before_sorts. destruct (before a b); naive_solver. Qed.

(** Rows passing a guard on the id are determined by it in a table with
    a primary key. *)
Lemma unique_ids_inj tbl j1 j2 k :
  unique_ids tbl → j1 ∈ tbl → j2 ∈ tbl → id j1 = Some k → id j2 = Some k → j1 = j2.
Proof.
  unfold unique_ids. induction tbl as [|a tbl IH]; intros Hnd H1 H2 E1 E2.
  - by apply elem_of_nil in H1.
  - simpl in Hnd. apply elem_of_cons in H1, H2.
    destruct (id a) as [ka|] eqn:Ea.
    + apply NoDup_cons in Hnd as [Hni Hnd].
      destruct H1 as [->|H1], H2 as [->|H2]; auto.
      * exfalso. apply Hni. rewrite Ea in E1. injection E1 as ->.
        apply list_elem_of_omap. eauto.
      * exfalso. apply Hni. rewrite Ea in E2. injection E2 as ->.
        apply list_elem_of_omap. eauto.
    + destruct H1 as [->|H1]; [congruence|].
      destruct H2 as [->|H2]; [congruence|]. auto.
Qed.

Lemma fetch_by_id_Some job_id tbl j :
  fetch_by_id job_id tbl = Some j → j ∈ tbl ∧ ∃ k, id j = Some k ∧ job_id = Some k.
Proof.
  unfold fetch_by_id. intros H. apply find_some in H as [Hin Heq].
  split; [by apply list_elem_of_In|]. by apply sql_eq_true.
Qed.

Lemma fetch_by_id_unique tbl j k :
  unique_ids tbl → j ∈ tbl → id j = Some k → fetch_by_id (Some k) tbl = Some j.
Proof.
  intros Hu Hin Hid. unfold fetch_by_id.
  destruct (List.find _ tbl) as [j'|] eqn:Hf.
  - apply find_some in Hf as [Hin' Heq]. apply sql_eq_true in Heq as (k' & E1 & [= <-]).
    f_equal. eapply unique_ids_inj; eauto. by apply list_elem_of_In.
  - exfalso. eapply find_none in Hf; [|by apply list_elem_of_In].
    simpl in Hf. rewrite Hid, sql_eq_Some_refl in Hf. discriminate.
Qed.

(** An UPDATE that keeps ids keeps the primary key. *)
Lemma unique_ids_update p f tbl :
  (∀ j, id (f j) = id j) → unique_ids tbl → unique_ids (sql_update p f tbl).
Proof.
  intros Hf. unfold unique_ids.
  assert (omap id (sql_update p f tbl) = omap id tbl) as ->; [|done].
  induction tbl as [|a tbl IH]; simpl; [done|].
  assert (id (if p a then f a else a) = id a) as -> by (destruct (p a); auto).
  destruct (id a); [f_equal|]; apply IH.
Qed.


(** Reading back the row an UPDATE by id has changed. *)
Lemma fetch_sql_update p f job_id tbl :
  (∀ j, id (f j) = id j) →
  fetch_by_id job_id (sql_update p f tbl)
  = (λ j, if p j then f j else j) <$> fetch_by_id job_id tbl.
Proof.
  intros Hf. unfold fetch_by_id, sql_update.
  induction tbl as [|a tbl IH]; simpl; [done|].
  assert (id (if p a then f a else a) = id a) as -> by (destruct (p a); auto).
  destruct (sql_eq (id a) job_id); [done|apply IH].
Qed.


End sql_facts.

Section store_facts.

Lemma ensure_db_run s :
  ∃ s', ensure_db s = (Return tt, s')
        ∧ jobs s' = jobs s ∧ workers s' = workers s
        ∧ (∀ v, config s !! "backoff_base" = Some v → config s' !! "backoff_base" = Some v)
        ∧ is_Some (control s' !! "shutdown")
        ∧ (∀ v, control s !! "shutdown" = Some v → control s' !! "shutdown" = Some v).
Proof.
  eexists. split; [reflexivity|]. simpl. repeat split.
  - intros v Hv. unfold insert_or_ignore at 1. simpl.
    destruct (_ !! "job_timeout_sec"); [|rewrite lookup_insert_ne by done];
      (unfold insert_or_ignore at 1; destruct (_ !! "max_retries_default");
       [|rewrite lookup_insert_ne by done]);
      unfold insert_or_ignore; by rewrite Hv.
  - unfold insert_or_ignore. destruct (control s !! "shutdown") eqn:E.
    + rewrite E. eauto.
    + rewrite lookup_insert_eq. eauto.
  - intros v Hv. unfold insert_or_ignore. by rewrite Hv.
Qed.

Lemma bind_ints_ok l s :
  forallb is_int64 l = true → bind_ints l s = (Return tt, s).
Proof. unfold bind_ints. by intros ->. Qed.

Lemma spawn_loop_run pid hex n : ∀ i s,
  ∃ ps, spawn_loop pid hex i n s = (Return ps, s)
        ∧ length ps = n
        ∧ Forall (λ p, spawned_flag p = control s !! "shutdown") ps.
Proof.
  induction n as [|n IH]; intros i s.
  - exists []. by repeat split.
  - destruct (IH (i + 1) s) as (ps & Hrun & Hlen & Hall).
    eexists. simpl. run_M. rewrite Hrun. split; [reflexivity|].
    split; [by rewrite <- Hlen|]. by constructor.
Qed.

End store_facts.

(** ** The backoff policy *)

Lemma compute_backoff_int base attempts :
compute_backoff (PyInt base) attempts = base ^ Z.max attempts 0.
Proof. reflexivity. Qed.

Lemma compute_backoff_fallback text attempts :
py_int_of_string text = Raise ValueError →
compute_backoff (PyStr text) attempts = 2 ^ Z.max attempts 0.
Proof. unfold compute_backoff. simpl. by intros ->. Qed.

(** ** One completion *)

Section completion.

Variables (j : job) (backoff_base : Z) (r : execution_result) (env : attempt_env).
Variable s : store.

Abbreviation ms := (elapsed_ms env).
Abbreviation now2 := (clock_done env).

Lemma complete_success :
  res_rc r = 0 → is_int64 ms = true →
  complete j backoff_base r env s
  = (Return tt, with_jobs (sql_update (has_id (id j)) (set_completed r ms now2)) s).
Proof.
  intros Hrc Hms. unfold complete. rewrite Hrc. simpl. run_M.
  rewrite bind_ints_ok; [done|]. simpl. by rewrite Hms.
Qed.

Lemma complete_no_row :
  res_rc r ≠ 0 → fetch_by_id (id j) (jobs s) = None →
  complete j backoff_base r env s = (Raise TypeError, s).
Proof.
  intros Hrc Hf. unfold complete.
  destruct (Z.eqb_spec (res_rc r) 0); [done|]. run_M. by rewrite Hf.
Qed.

Variable cur : job.
Hypothesis Hcur : fetch_by_id (id j) (jobs s) = Some cur.
Hypothesis Hrc : res_rc r ≠ 0.

Lemma complete_dead :
  max_retries cur < attempts cur + 1 →
  forallb is_int64 [attempts cur + 1; res_rc r; ms] = true →
  complete j backoff_base r env s
  = (Return tt,
     with_jobs (sql_update (has_id (id j)) (set_dead (attempts cur + 1) r ms now2)) s).
Proof.
  intros Hlt Hint. unfold complete.
  destruct (Z.eqb_spec (res_rc r) 0); [done|]. run_M. rewrite Hcur.
  destruct (Z.ltb_spec (max_retries cur) (attempts cur + 1)); [|lia].
  by rewrite bind_ints_ok.
Qed.

Lemma complete_failed next_run :
  attempts cur + 1 ≤ max_retries cur →
  datetime_add_seconds (clock_retry env) (backoff_base ^ Z.max (attempts cur + 1) 0)
  = Return next_run →
  forallb is_int64 [attempts cur + 1; res_rc r; ms] = true →
  complete j backoff_base r env s
  = (Return tt,
     with_jobs (sql_update (has_id (id j))
                  (set_failed (attempts cur + 1) r ms next_run now2)) s).
Proof.
  intros Hle Hadd Hint. unfold complete.
  destruct (Z.eqb_spec (res_rc r) 0); [done|]. run_M. rewrite Hcur.
  destruct (Z.ltb_spec (max_retries cur) (attempts cur + 1)); [lia|].
  rewrite compute_backoff_int, Hadd.
  by rewrite bind_ints_ok.
Qed.

Lemma complete_overflow :
  attempts cur + 1 ≤ max_retries cur →
  datetime_add_seconds (clock_retry env) (backoff_base ^ Z.max (attempts cur + 1) 0)
  = Raise OverflowError →
  complete j backoff_base r env s = (Raise OverflowError, s).
Proof.
  intros Hle Hadd. unfold complete.
  destruct (Z.eqb_spec (res_rc r) 0); [done|]. run_M. rewrite Hcur.
  destruct (Z.ltb_spec (max_retries cur) (attempts cur + 1)); [lia|].
  by rewrite compute_backoff_int, Hadd.
Qed.

End completion.

(** ** Backoff (claims C5, C6) *)

(** Claim C5.  For every integer base and attempts count,
    [compute_backoff] is [base ^ max(attempts, 0)]; with base 2 it is
    [2 ^ attempts] for a count that is not negative, and it never
    decreases when the count grows.  The count the failure path passes is
    the post-increment one: a failure below the retry limit of a row with
    [attempts cur] recorded failures is rescheduled
    [compute_backoff base (attempts cur + 1)] seconds after the clock. *)
Theorem backoff_is_power (base n : Z) :
  compute_backoff (PyInt base) n = base ^ Z.max n 0
  ∧ (0 ≤ n → compute_backoff (PyInt 2) n = 2 ^ n)
  ∧ (∀ later, n ≤ later →
       compute_backoff (PyInt 2) n ≤ compute_backoff (PyInt 2) later)
  ∧ (∀ j r env s cur next_run,
       fetch_by_id (id j) (jobs s) = Some cur →
       res_rc r ≠ 0 →
       attempts cur + 1 ≤ max_retries cur →
       datetime_add_seconds (clock_retry env)
         (compute_backoff (PyInt base) (attempts cur + 1)) = Return next_run →
       forallb is_int64 [attempts cur + 1; res_rc r; elapsed_ms env] = true →
       complete j base r env s
       = (Return tt,
          with_jobs (sql_update (has_id (id j))
            (set_failed (attempts cur + 1) r (elapsed_ms env) next_run (clock_done env))) s)).
Proof.
  split; [reflexivity|]. split; [|split].
  - intros H. rewrite compute_backoff_int. f_equal. lia.
  - intros later H. rewrite !compute_backoff_int.
    apply Z.pow_le_mono_r; lia.
  - intros j r env s cur next_run Hcur Hrc Hle Hadd Hint.
    eapply complete_failed; eauto.
Qed.

Lemma backoff_is_power_witness :
  compute_backoff (PyInt 2) 3 = 2 ^ 3
  ∧ compute_backoff (PyInt 2) 3 ≤ compute_backoff (PyInt 2) 5.
Proof.
  destruct (backoff_is_power 2 3) as (_ & Hpow & Hmono & _).
  split; [apply Hpow; lia | apply Hmono; lia].
Defined.

(** Claim C6, at a configuration whose [backoff_base] is not numeric.
    [compute_backoff] itself falls back to base 2 on such a base, but
    [run_job] converts the configured text with [int] before it runs the
    command: [ValueError] leaves [run_job], the job table is as it was and
    no delay is ever computed. *)
Theorem non_numeric_backoff_base_raises
    (worker_id : string) (j : job) (env : attempt_env) (s : store) (n : Z) :
  let s_bad := with_config <["backoff_base" := "abc"]> s in
  compute_backoff (PyStr "abc") n = 2 ^ Z.max n 0
  ∧ fst (run_job worker_id j env s_bad) = Raise ValueError
  ∧ jobs (snd (run_job worker_id j env s_bad)) = jobs s.
Proof.
  intros s_bad. split; [reflexivity|].
  unfold run_job, s_bad, get_config. run_M.
  rewrite lookup_insert_eq. simpl. by split.
Qed.

(** ** Control plane (claim C10) *)

(** Claim C10.  Whatever the store holds, [spawn_workers] sets the
    shutdown flag to "0" before it starts any worker: every process it
    starts is started on a store whose flag is "0", and the flag is "0"
    when it returns; one process per round of the loop. *)
Theorem spawn_workers_clears_shutdown (count pid : Z) (hex : Z → string) (s : store) :
  ∃ ps s',
    spawn_workers count pid hex s = (Return ps, s')
    ∧ control s' !! "shutdown" = Some "0"
    ∧ length ps = Z.to_nat count
    ∧ Forall (λ p, spawned_flag p = Some "0") ps.
Proof.
  destruct (ensure_db_run s) as (s1 & Hdb & _ & _ & _ & [v Hv] & _).
  set (s2 := with_control (update_value "shutdown" "0") s1).
  assert (control s2 !! "shutdown" = Some "0") as Hflag.
  { unfold s2, update_value. simpl. rewrite lookup_alter_eq, Hv. done. }
  destruct (spawn_loop_run pid hex (Z.to_nat count) 0 s2) as (ps & Hrun & Hlen & Hall).
  exists ps, s2. split.
  - unfold spawn_workers. unfold bind at 1. rewrite Hdb.
    unfold bind, modify. fold s2. by rewrite Hrun.
  - split; [done|]. split; [done|].
    eapply Forall_impl; [exact Hall|]. intros p Hp.
    etrans; [exact Hp|exact Hflag].
Qed.

(** ** Dead-letter requeue (claim C7) *)

Lemma find_dead_unique tbl k :
  unique_ids tbl →
  List.find (λ j, has_id (Some k) j && is_dead (state j)) tbl
  = match fetch_by_id (Some k) tbl with
    | Some j => if is_dead (state j) then Some j else None
    | None => None
    end.
Proof.
  intros Hu. destruct (List.find _ tbl) as [j'|] eqn:Hf.
  - apply find_some in Hf as [Hin Hg]. apply andb_true_iff in Hg as [Hid Hdead].
    apply sql_eq_true in Hid as (k' & Hid & [= <-]).
    rewrite (fetch_by_id_unique tbl j' k); auto; [by rewrite Hdead|].
    by apply list_elem_of_In.
  - destruct (fetch_by_id (Some k) tbl) as [j|] eqn:Hq; [|done].
    apply fetch_by_id_Some in Hq as (Hin & k' & Hid & [= <-]).
    eapply find_none in Hf; [|by apply list_elem_of_In].
    simpl in Hf. unfold has_id in Hf. rewrite Hid, sql_eq_Some_refl in Hf.
    simpl in Hf. by rewrite Hf.
Qed.

Lemma has_id_unique tbl j j' k :
  unique_ids tbl → fetch_by_id (Some k) tbl = Some j →
  j' ∈ tbl → has_id (Some k) j' = true → j' = j.
Proof.
  intros Hu Hq Hin Hid. apply fetch_by_id_Some in Hq as (Hj & k' & Hk & [= <-]).
  apply sql_eq_true in Hid as (k' & Hk' & [= <-]).
  eapply unique_ids_inj; eauto.
Qed.



(** ** Claim (claim C2) *)

Lemma eligible_iff now j :
  eligible now j = true
  ↔ (state j = Pending ∨ state j = Failed)
    ∧ (next_run_at j = None ∨ ∃ t, next_run_at j = Some t ∧ t ≤ now).
Proof.
  unfold eligible, due, claimable. rewrite andb_true_iff. split.
  - intros [Hst Hdue]. split.
    + destruct (state j); auto; discriminate.
    + destruct (next_run_at j) as [t|]; [right|by left].
      exists t. split; [done|lia].
  - intros [Hst Hdue]. split.
    + by destruct Hst as [-> | ->].
    + destruct Hdue as [-> | (t & -> & Ht)]; [done|lia].
Qed.

Lemma elem_of_filter_bool (p : job → bool) tbl j :
  j ∈ List.filter p tbl ↔ j ∈ tbl ∧ p j = true.
Proof. rewrite !list_elem_of_In. apply filter_In. Qed.

(** [first_row] returns a row of its input that no row of the input sorts
    before. *)
Lemma first_row_least l : ∀ best,
  first_row best l ∈ best :: l
  ∧ ∀ x, x ∈ best :: l → ¬ sorts_before x (first_row best l).
Proof.
  induction l as [|j l IH]; intros best; simpl.
  - split; [apply list_elem_of_here|].
    intros x Hx. apply list_elem_of_singleton in Hx as ->.
    unfold sorts_before. lia.
  - destruct (IH (if before j best then j else best)) as [Hin Hleast].
    set (m := first_row (if before j best then j else best) l) in *.
    split.
    + apply elem_of_cons in Hin as [Hm|Hin].
      * rewrite Hm. destruct (before j best);
          [apply list_elem_of_further|]; apply list_elem_of_here.
      * by do 2 apply list_elem_of_further.
    + intros x Hx.
      assert (¬ sorts_before j m ∧ ¬ sorts_before best m) as [Hj Hb].
      { destruct (before j best) eqn:Hjb.
        - apply before_sorts in Hjb.
          pose proof (Hleast j (list_elem_of_here _ _)) as Hj.
          split; [done|]. revert Hjb Hj. unfold sorts_before. lia.
        - apply before_false in Hjb.
          pose proof (Hleast best (list_elem_of_here _ _)) as Hb.
          split; [|done]. revert Hjb Hb. unfold sorts_before. lia. }
      apply elem_of_cons in Hx as [->|Hx]; [done|].
      apply elem_of_cons in Hx as [->|Hx]; [done|].
      apply Hleast. by apply list_elem_of_further.
Qed.

Lemma select_claimable_None now tbl :
  select_claimable now tbl = None → ∀ j, j ∈ tbl → eligible now j = false.
Proof.
  unfold select_claimable. intros H j Hin.
  destruct (List.filter (eligible now) tbl) as [|a l] eqn:Hf; [|discriminate].
  destruct (eligible now j) eqn:He; [|done].
  assert (j ∈ List.filter (eligible now) tbl) as Hj by by apply elem_of_filter_bool.
  rewrite Hf in Hj. by apply elem_of_nil in Hj.
Qed.

Lemma select_claimable_Some now tbl row :
  select_claimable now tbl = Some row →
  row ∈ tbl ∧ eligible now row = true
  ∧ ∀ j, j ∈ tbl → eligible now j = true → ¬ sorts_before j row.
Proof.
  unfold select_claimable. intros H.
  destruct (List.filter (eligible now) tbl) as [|a l] eqn:Hf; [discriminate|].
  injection H as <-.
  destruct (first_row_least l a) as [Hin Hleast].
  rewrite <- Hf in Hin, Hleast.
  apply elem_of_filter_bool in Hin as [Hin He].
  split; [done|]. split; [done|].
  intros j Hj Hej. apply Hleast. by apply elem_of_filter_bool.
Qed.

(** With a primary key, a guard that fixes the id matches one row. *)
Lemma rowcount_unique p tbl row k :
  unique_ids tbl → row ∈ tbl → p row = true →
  (∀ j, p j = true → id j = Some k) →
  rowcount p tbl = 1%nat.
Proof.
  unfold unique_ids, rowcount. intros Hu Hin Hp Hk.
  induction tbl as [|a tbl IH]; [by apply elem_of_nil in Hin|].
  simpl in *. destruct (p a) eqn:Hpa.
  - rewrite (Hk a Hpa) in Hu. apply NoDup_cons in Hu as [Hni _].
    simpl. f_equal.
    assert (List.filter p tbl = []) as ->; [|done].
    destruct (List.filter p tbl) as [|b l] eqn:Hf; [done|]. exfalso.
    assert (b ∈ List.filter p tbl) as Hb by (rewrite Hf; apply list_elem_of_here).
    apply elem_of_filter_bool in Hb as [Hb Hpb].
    apply Hni. apply list_elem_of_omap. eauto.
  - apply elem_of_cons in Hin as [->|Hin]; [congruence|].
    apply IH; [|done]. destruct (id a); [by apply NoDup_cons in Hu as [_ ?]|done].
Qed.

Lemma rowcount_null_id tbl : rowcount (claim_guard None) tbl = 0%nat.
Proof.
  unfold rowcount, claim_guard. induction tbl as [|a tbl IH]; [done|].
  simpl. by rewrite sql_eq_None_r.
Qed.

Lemma set_processing_id w now j : id (set_processing w now j) = id j.
Proof. reflexivity. Qed.



(** A NULL id at the head of the order: the guarded UPDATE matches no row,
    nothing is claimed, and the rows behind it are not reached. *)
Example acquire_job_null_id :
  let s := sample_store [sample_job None Pending 0 3 5;
                         sample_job (Some "job2") Pending 0 3 0] in
  acquire_job "w1" T1 s = (Return None, s).
Proof. reflexivity. Qed.

(** ** Execution (claim C8) *)

(** Claim C8, as the code has it.  For a command line without NUL,
    [execute] returns the exit code and the captured output of a child that
    exits; when the timeout expires and the stderr captured so far is
    absent or text, it returns code -1 with "TIMEOUT after <n>s" appended
    to that stderr; an exception of the process layer other than the
    timeout is raised to the caller unchanged. *)
Theorem execute_maps_timeout_only (cmd : string) (job_timeout : Z) (o : proc_outcome) :
  has_nul cmd = false →
  match o with
  | Exited rc out err =>
      execute cmd job_timeout o = Return (mkResult rc out err)
  | TimedOut out err =>
      ∀ e, or_empty err = Str e →
      execute cmd job_timeout o
      = Return (mkResult (-1) (captured_bytes (or_empty out))
                  (e ++ "TIMEOUT after " ++ py_str job_timeout ++ "s"))
  | Faulted e =>
      execute cmd job_timeout o = Raise e
  end.
Proof.
  intros Hnul. unfold execute, subprocess_run. rewrite Hnul.
  destruct o as [rc out err|out err|e]; [done| |done].
  intros e He. by rewrite He.
Qed.

Lemma execute_maps_timeout_only_witness :
  has_nul "sleep 60" = false
  ∧ execute "sleep 60" 5 (TimedOut NoOutput (Str "warming up"))
    = Return (mkResult (-1) "" "warming upTIMEOUT after 5s").
Proof.
  split; [reflexivity|].
  exact (execute_maps_timeout_only "sleep 60" 5 (TimedOut NoOutput (Str "warming up"))
           eq_refl "warming up" eq_refl).
Defined.

(** Claim C8 as stated fails: a command line with a NUL makes
    [subprocess.run] raise [ValueError], which no handler of [run_job]
    catches; the call raises and the job stays in processing. *)
Lemma execute_raises_on_nul :
  fst (run_job "w1" (mkJob (Some "job1") (String Ascii.zero "") Processing 0 3 T0 T0
                       None None (Some "w1") (Some T0) 0 None None None None)
         (sample_env (Exited 0 "" ""))
         (sample_store [mkJob (Some "job1") (String Ascii.zero "") Processing 0 3 T0 T0
                          None None (Some "w1") (Some T0) 0 None None None None]))
  = Raise ValueError
  ∧ ¬ (∃ res, execute (String Ascii.zero "") 0 (Exited 0 "" "") = Return res).
Proof.
  split; [reflexivity|]. intros [res H]. discriminate.
Qed.

(** On POSIX the output captured before a timeout is bytes: appending the
    marker to captured stderr bytes raises [TypeError]. *)
Example execute_timeout_bytes :
  execute "sleep 60" 5 (TimedOut NoOutput (Bytes "warming up")) = Raise TypeError.
Proof. reflexivity. Qed.

(** ** Completion (claim C3) *)

Lemma datetime_add_seconds_cases t delay :
  datetime_add_seconds t delay = Return (t + delay * US_PER_SECOND)
  ∨ datetime_add_seconds t delay = Raise OverflowError.
Proof.
  unfold datetime_add_seconds.
  destruct (_ || _); [by right|]. destruct (valid_datetime _); auto.
Qed.

Lemma fetch_after_update jid f tbl cur :
  (∀ j, id (f j) = id j) →
  fetch_by_id jid tbl = Some cur →
  fetch_by_id jid (sql_update (has_id jid) f tbl) = Some (f cur).
Proof.
  intros Hf Hq. rewrite fetch_sql_update, Hq by done. simpl.
  apply fetch_by_id_Some in Hq as (_ & k & Hk & ->).
  unfold has_id. by rewrite Hk, sql_eq_Some_refl.
Qed.




(** ** Concurrent claims (claim C1) *)

Section interleaving.

Variable tbl0 : list job.

Lemma consistent_update ids tbl job_id w now :
  consistent tbl0 ids tbl →
  consistent tbl0 ids (sql_update (claim_guard job_id) (set_processing w now) tbl).
Proof.
  intros (Hu & Hp & Hc). split; [|split].
  - by apply unique_ids_update.
  - intros k Hk. destruct (Hp k Hk) as (j & Hq & Hst).
    eexists. rewrite fetch_sql_update, Hq by done. split; [reflexivity|].
    by destruct (claim_guard job_id j).
  - intros k j' Hq Hcl. rewrite fetch_sql_update in Hq by done.
    destruct (fetch_by_id (Some k) tbl) as [j|] eqn:Hj; [|discriminate].
    simpl in Hq. injection Hq as <-.
    destruct (claim_guard job_id j); [discriminate|]. eauto.
Qed.

Lemma rowcount_one_fetch tbl job_id :
  unique_ids tbl → rowcount (claim_guard job_id) tbl = 1%nat →
  ∃ k j, job_id = Some k ∧ fetch_by_id (Some k) tbl = Some j
         ∧ claimable (state j) = true.
Proof.
  intros Hu Hcount. destruct job_id as [k|]; [|by rewrite rowcount_null_id in Hcount].
  unfold rowcount in Hcount.
  destruct (List.filter (claim_guard (Some k)) tbl) as [|j l] eqn:Hf; [discriminate|].
  assert (j ∈ List.filter (claim_guard (Some k)) tbl) as Hj
    by (rewrite Hf; apply list_elem_of_here).
  apply elem_of_filter_bool in Hj as [Hin Hg].
  unfold claim_guard in Hg. apply andb_true_iff in Hg as [Hid Hcl].
  apply sql_eq_true in Hid as (k' & Hid & [= <-]).
  exists k, j. split; [done|]. split; [by apply fetch_by_id_unique|done].
Qed.


Lemma others_waiting σ w w' ph' :
  (∀ w ph, calls σ !! w = Some ph → phase_ok tbl0 σ w ph) →
  writer σ = Some w → w' ≠ w → calls σ !! w' = Some ph' →
  ∃ now, ph' = Waiting now.
Proof.
  intros Hcalls Hwr Hne Hw'. specialize (Hcalls w' ph' Hw').
  destruct ph'; simpl in Hcalls; [eauto|..];
    destruct Hcalls as [Hwr' _]; congruence.
Qed.

Lemma nobody_writing σ w' ph' :
  (∀ w ph, calls σ !! w = Some ph → phase_ok tbl0 σ w ph) →
  writer σ = None → calls σ !! w' = Some ph' →
  ∃ now, ph' = Waiting now.
Proof.
  intros Hcalls Hwr Hw'. specialize (Hcalls w' ph' Hw').
  destruct ph'; simpl in Hcalls; [eauto|..];
    destruct Hcalls as [Hwr' _]; congruence.
Qed.

(** The call of [w] ends: every other worker is still waiting. *)
Lemma calls_after_end σ σ' w :
  (∀ w ph, calls σ !! w = Some ph → phase_ok tbl0 σ w ph) →
  writer σ = Some w → calls σ' = delete w (calls σ) →
  ∀ w' ph', calls σ' !! w' = Some ph' → phase_ok tbl0 σ' w' ph'.
Proof.
  intros Hcalls Hwr Heq w' ph' Hw'. rewrite Heq in Hw'.
  destruct (decide (w' = w)) as [->|Hne].
  - by rewrite lookup_delete_eq in Hw'.
  - rewrite lookup_delete_ne in Hw' by done.
    by destruct (others_waiting σ w w' ph' Hcalls Hwr Hne Hw') as [now ->].
Qed.

Lemma step_invariant e σ : invariant tbl0 σ → invariant tbl0 (step e σ).
Proof.
  intros [Hdb Hnd Hcalls Hret]. destruct e as [w clock|w]; simpl.
  - destruct (calls σ !! w) as [ph|] eqn:Hw.
    + pose proof (Hcalls w ph Hw) as Hph.
      destruct ph as [now|now s0|now s0 job_id|job_id]; simpl in Hph.
      * (* BEGIN IMMEDIATE *)
        destruct (writer σ) as [holder|] eqn:Hwr; [by constructor|].
        constructor; simpl; try done.
        intros w' ph' Hw'. destruct (decide (w' = w)) as [->|Hne].
        -- rewrite lookup_insert_eq in Hw'. injection Hw' as <-. by split.
        -- rewrite lookup_insert_ne in Hw' by done.
           by destruct (nobody_writing σ w' ph' Hcalls Hwr Hw') as [now' ->].
      * (* SELECT *)
        destruct Hph as [Hwr Hs0].
        destruct (select_claimable now (jobs (db σ))) as [row|].
        -- constructor; simpl; try done.
           intros w' ph' Hw'. destruct (decide (w' = w)) as [->|Hne].
           ++ rewrite lookup_insert_eq in Hw'. injection Hw' as <-. by split.
           ++ rewrite lookup_insert_ne in Hw' by done.
              by destruct (others_waiting σ w w' ph' Hcalls Hwr Hne Hw') as [now' ->].
        -- constructor; try done.
           ++ by eapply calls_after_end.
           ++ intros w' j Hin. apply elem_of_cons in Hin as [[=]|Hin]. eauto.
      * (* UPDATE *)
        destruct Hph as [Hwr Hs0].
        destruct (Nat.eqb_spec (rowcount (claim_guard job_id) (jobs (db σ))) 1)
          as [Hcount|Hcount]; simpl.
        -- destruct Hdb as (Hu & Hp & Hc).
           destruct (rowcount_one_fetch _ _ Hu Hcount) as (k & j & -> & Hq & Hcl).
           assert (consistent tbl0 (returned_ids σ)
                     (sql_update (claim_guard (Some k)) (set_processing w now)
                        (jobs (db σ)))) as Hdb'
             by by apply consistent_update.
           constructor; simpl; try done.
           intros w' ph' Hw'. destruct (decide (w' = w)) as [->|Hne].
           ++ rewrite lookup_insert_eq in Hw'. injection Hw' as <-.
              split; [done|].
              exists k, (set_processing w now j). split; [done|]. split.
              { intros Hk. destruct (Hp k Hk) as (j' & Hq' & Hst).
                rewrite Hq in Hq'. injection Hq' as <-. by rewrite Hst in Hcl. }
              split.
              { simpl. rewrite fetch_sql_update, Hq by done. simpl.
                apply fetch_by_id_Some in Hq as (_ & k' & Hid & [= <-]).
                unfold claim_guard. by rewrite Hid, sql_eq_Some_refl, Hcl. }
              destruct (Hc k j Hq Hcl) as (j0 & Hq0 & Hcl0).
              apply fetch_by_id_Some in Hq as (_ & k' & Hid & [= <-]).
              by exists k, j0.
           ++ rewrite lookup_insert_ne in Hw' by done.
              by destruct (others_waiting σ w w' ph' Hcalls Hwr Hne Hw') as [now' ->].
        -- constructor; try done.
           ++ by eapply calls_after_end.
           ++ intros w' j Hin. apply elem_of_cons in Hin as [[=]|Hin]. eauto.
      * (* SELECT the claimed row, COMMIT *)
        destruct Hph as (Hwr & k & j & -> & Hk & Hq & Hho).
        rewrite Hq. destruct Hho as (k' & j0 & Hid & Hq0 & Hcl0 & Hst & Hby).
        assert (k' = k) as ->.
        { apply fetch_by_id_Some in Hq as (_ & k'' & Hid' & [= <-]). congruence. }
        assert (returned_ids (finish w (Some j) (db σ) σ) = k :: returned_ids σ) as Hids.
        { unfold returned_ids. simpl. by rewrite Hid. }
        constructor.
        -- rewrite Hids. destruct Hdb as (Hu & Hp & Hc). split; [done|]. split; [|done].
           intros k' Hk'. apply elem_of_cons in Hk' as [->|Hk']; [|by apply Hp].
           by exists j.
        -- rewrite Hids. by apply NoDup_cons.
        -- by eapply calls_after_end.
        -- intros w' j' Hin. apply elem_of_cons in Hin as [[= -> ->]|Hin]; [|eauto].
           by exists k, j0.
    + (* utcnow(), then wait for the lock *)
      constructor; simpl; try done.
      intros w' ph' Hw'. destruct (decide (w' = w)) as [->|Hne].
      * rewrite lookup_insert_eq in Hw'. by injection Hw' as <-.
      * rewrite lookup_insert_ne in Hw' by done. by apply (Hcalls w' ph').
  - destruct (calls σ !! w) as [[now| | |]|] eqn:Hw; try by constructor.
    destruct (writer σ) as [holder|] eqn:Hwr; [|by constructor].
    constructor; simpl; try done.
    intros w' ph' Hw'. destruct (decide (w' = w)) as [->|Hne].
    + by rewrite lookup_delete_eq in Hw'.
    + rewrite lookup_delete_ne in Hw' by done.
      specialize (Hcalls w' ph' Hw'). destruct ph'; simpl in *; try done.
      all: by rewrite <- Hwr.
Qed.

End interleaving.


Lemma initial_invariant s : unique_ids (jobs s) → invariant (jobs s) (initial s).
Proof.
  intros Hu. constructor; simpl.
  - split; [done|]. split.
    + intros k Hk. by apply elem_of_nil in Hk.
    + intros k j Hq Hcl. eauto.
  - constructor.
  - intros w ph Hw. by rewrite lookup_empty in Hw.
  - intros w j Hin. by apply elem_of_nil in Hin.
Qed.

Lemma run_invariant tbl0 schedule : ∀ σ,
  invariant tbl0 σ → invariant tbl0 (run schedule σ).
Proof.
  induction schedule as [|e schedule IH]; intros σ Hinv; [done|].
  simpl. apply IH. by apply step_invariant.
Qed.

(** Positions of a list that map to the same key under [omap] coincide
    when the keys are pairwise distinct. *)
Lemma omap_NoDup_lookup {A B} (f : A → option B) (l : list A) :
  NoDup (omap f l) →
  ∀ i1 i2 x1 x2 k,
    l !! i1 = Some x1 → l !! i2 = Some x2 → f x1 = Some k → f x2 = Some k → i1 = i2.
Proof.
  induction l as [|a l IH]; intros Hnd i1 i2 x1 x2 k H1 H2 E1 E2; [done|].
  simpl in Hnd.
  assert (∀ i x, l !! i = Some x → f x = Some k → k ∈ omap f l) as Hmem.
  { intros i x Hx Ex. apply list_elem_of_omap. exists x.
    split; [|done]. by eapply list_elem_of_lookup_2. }
  destruct i1 as [|i1], i2 as [|i2]; simpl in H1, H2.
  - done.
  - injection H1 as ->. rewrite E1 in Hnd. apply NoDup_cons in Hnd as [Hni _].
    exfalso. eauto.
  - injection H2 as ->. rewrite E2 in Hnd. apply NoDup_cons in Hnd as [Hni _].
    exfalso. eauto.
  - f_equal. eapply IH; eauto.
    destruct (f a); [by apply NoDup_cons in Hnd as [_ ?]|done].
Qed.

(** Claim C1.  Start from a store with a primary key and let any number
    of workers run [acquire_job], their statements interleaved in any
    order under the write lock.  Then no two calls return the same job
    id; every job returned was in state pending or failed in the store the
    calls started from, so a job already processing there is returned to
    nobody; and it is returned in state processing, locked by the worker
    that receives it. *)
Theorem concurrent_claims_exclusive (s : store) (schedule : list event) :
  unique_ids (jobs s) →
  let σ := run schedule (initial s) in
  NoDup (returned_ids σ)
  ∧ (∀ i1 i2 w1 w2 j1 j2,
       returned σ !! i1 = Some (w1, Some j1) →
       returned σ !! i2 = Some (w2, Some j2) →
       id j1 = id j2 → i1 = i2)
  ∧ (∀ w j, (w, Some j) ∈ returned σ →
       ∃ k j0, id j = Some k
               ∧ fetch_by_id (Some k) (jobs s) = Some j0
               ∧ (state j0 = Pending ∨ state j0 = Failed)
               ∧ state j = Processing ∧ locked_by j = Some w).
Proof.
  intros Hu σ.
  destruct (run_invariant (jobs s) schedule (initial s) (initial_invariant s Hu))
    as [_ Hnd _ Hret]. fold σ in Hnd, Hret.
  split; [done|]. split.
  - intros i1 i2 w1 w2 j1 j2 H1 H2 Hid.
    destruct (Hret w1 j1) as (k & _ & Hk & _); [by eapply list_elem_of_lookup_2|].
    eapply (omap_NoDup_lookup _ _ Hnd); eauto; simpl; congruence.
  - intros w j Hin. destruct (Hret w j Hin) as (k & j0 & Hid & Hq & Hcl & Hst & Hby).
    exists k, j0. repeat split; try done.
    destruct (state j0); auto; discriminate.
Qed.

(** Two workers race for the one pending job: the worker that gets the
    lock first receives it, the other receives [None]. *)
Lemma concurrent_claims_exclusive_witness :
  let s := sample_store [sample_job (Some "job1") Pending 0 3 0] in
  let σ := run [Tick "w1" T1; Tick "w2" T1; Tick "w2" T1; Tick "w1" T1; Tick "w2" T1;
                Tick "w1" T1; Tick "w2" T1; Tick "w2" T1; Tick "w1" T1; Tick "w1" T1]
               (initial s) in
  unique_ids (jobs s)
  ∧ returned σ = [("w1", None);
                  ("w2", Some (set_processing "w2" T1 (sample_job (Some "job1") Pending 0 3 0)))]
  ∧ NoDup (returned_ids σ).
Proof.
  intros s σ.
  assert (unique_ids (jobs s)) as Hu by apply NoDup_singleton.
  split; [exact Hu|]. split; [reflexivity|].
  exact (proj1 (concurrent_claims_exclusive s _ Hu)).
Defined.

(** *** A worker alone *)

Section one_step.

Variables (w : string) (c : timestamp) (σ : system).

Lemma step_enter :
  calls σ !! w = None → step (Tick w c) σ = move w (Waiting c) σ.
Proof. intros H. simpl. by rewrite H. Qed.

Lemma step_begin now :
  calls σ !! w = Some (Waiting now) → writer σ = None →
  step (Tick w c) σ
  = mkSystem (db σ) (Some w) (<[w := Selecting now (db σ)]> (calls σ))
             (returned σ) (raised σ).
Proof. intros H Hwr. simpl. by rewrite H, Hwr. Qed.

Lemma step_select now s0 :
  calls σ !! w = Some (Selecting now s0) →
  step (Tick w c) σ
  = match select_claimable now (jobs (db σ)) with
    | None => finish w None (db σ) σ
    | Some row => move w (Updating now s0 (id row)) σ
    end.
Proof. intros H. simpl. by rewrite H. Qed.

Lemma step_update now s0 job_id :
  calls σ !! w = Some (Updating now s0 job_id) →
  step (Tick w c) σ
  = if negb (rowcount (claim_guard job_id) (jobs (db σ)) =? 1)%nat
    then finish w None s0 σ
    else mkSystem
           (with_jobs (sql_update (claim_guard job_id) (set_processing w now)) (db σ))
           (writer σ) (<[w := Fetching job_id]> (calls σ)) (returned σ) (raised σ).
Proof. intros H. simpl. by rewrite H. Qed.

Lemma step_fetch job_id :
  calls σ !! w = Some (Fetching job_id) →
  step (Tick w c) σ
  = match fetch_by_id job_id (jobs (db σ)) with
    | Some j => finish w (Some j) (db σ) σ
    | None => abort w OperationalError (db σ) σ
    end.
Proof. intros H. simpl. by rewrite H. Qed.

End one_step.

Lemma run_cons e schedule σ : run (e :: schedule) σ = run schedule (step e σ).
Proof. reflexivity. Qed.

Lemma acquire_job_eq w now s :
  acquire_job w now s
  = match select_claimable now (jobs s) with
    | None => (Return None, s)
    | Some row =>
        let tbl' := sql_update (claim_guard (id row)) (set_processing w now) (jobs s) in
        if negb (rowcount (claim_guard (id row)) (jobs s) =? 1)%nat
        then (Return None, s)
        else match fetch_by_id (id row) tbl' with
             | Some j =>
                 (Return (Some j),
                  with_jobs (sql_update (claim_guard (id row)) (set_processing w now)) s)
             | None =>
                 (Raise OperationalError,
                  with_jobs (sql_update (claim_guard (id row)) (set_processing w now)) s)
             end
    end.
Proof.
  unfold acquire_job. run_M.
  destruct (select_claimable now (jobs s)) as [row|]; [|done].
  destruct (negb _); [done|]. by destruct (fetch_by_id _ _).
Qed.

(** A worker that runs alone executes [acquire_job]: at most five steps
    of its own, from a store nobody is writing, end the call with the
    result and the store of the function. *)
Lemma alone_is_acquire_job (w : string) (now : timestamp) (σ : system) :
  calls σ !! w = None → writer σ = None →
  ∃ n, (n ≤ 4)%nat ∧
    let σ' := run (Tick w now :: replicate n (Tick w now)) σ in
    calls σ' !! w = None ∧ writer σ' = None
    ∧ match acquire_job w now (db σ) with
      | (Return result, s') =>
          db σ' = s' ∧ returned σ' = (w, result) :: returned σ ∧ raised σ' = raised σ
      | (Raise e, s') =>
          db σ' = s' ∧ returned σ' = returned σ ∧ raised σ' = (w, e) :: raised σ
      end.
Proof.
  intros Hw Hwr. rewrite acquire_job_eq.
  assert (∀ n, run (Tick w now :: Tick w now :: Tick w now :: replicate n (Tick w now)) σ
               = run (replicate n (Tick w now))
                   (match select_claimable now (jobs (db σ)) with
                    | None =>
                        mkSystem (db σ) None
                          (delete w (<[w := Selecting now (db σ)]>
                                       (<[w := Waiting now]> (calls σ))))
                          ((w, None) :: returned σ) (raised σ)
                    | Some row =>
                        mkSystem (db σ) (Some w)
                          (<[w := Updating now (db σ) (id row)]>
                             (<[w := Selecting now (db σ)]>
                                (<[w := Waiting now]> (calls σ))))
                          (returned σ) (raised σ)
                    end)) as Hthree.
  { intros n. rewrite !run_cons. f_equal.
    rewrite (step_enter w now σ Hw).
    rewrite (step_begin w now (move w (Waiting now) σ) now);
      [|apply lookup_insert_eq|exact Hwr].
    rewrite (step_select w now _ now (db σ)) by apply lookup_insert_eq. cbn [db move].
    by destruct (select_claimable now (jobs (db σ))). }
  destruct (select_claimable now (jobs (db σ))) as [row|] eqn:Hsel.
  - destruct (Nat.eqb_spec (rowcount (claim_guard (id row)) (jobs (db σ))) 1)
      as [Hcount|Hcount]; cbn zeta; cbn [negb].
    + exists 4%nat. split; [lia|].
      change (replicate 4 (Tick w now))
        with (Tick w now :: Tick w now :: replicate 2 (Tick w now)).
      rewrite Hthree. cbn [replicate]. rewrite run_cons.
      rewrite (step_update w now _ now (db σ) (id row)) by apply lookup_insert_eq.
      cbn [db]. rewrite Hcount. cbn [Nat.eqb negb]. rewrite run_cons.
      rewrite (step_fetch w now _ (id row)) by apply lookup_insert_eq.
      cbn [db with_jobs jobs].
      destruct (fetch_by_id (id row) _) as [j|];
        cbn [run foldl finish abort calls writer db returned raised];
        rewrite lookup_delete_eq; repeat split; by destruct (db σ).
    + exists 3%nat. split; [lia|].
      change (replicate 3 (Tick w now))
        with (Tick w now :: Tick w now :: replicate 1 (Tick w now)).
      rewrite Hthree. cbn [replicate]. rewrite run_cons.
      rewrite (step_update w now _ now (db σ) (id row)) by apply lookup_insert_eq.
      cbn [db].
      destruct (Nat.eqb_spec (rowcount (claim_guard (id row)) (jobs (db σ))) 1);
        [done|].
      cbn [negb run foldl finish calls writer db returned raised].
      rewrite lookup_delete_eq. repeat split; by destruct (db σ).
  - exists 2%nat. split; [lia|].
    change (replicate 2 (Tick w now))
      with (Tick w now :: Tick w now :: replicate 0 (Tick w now)).
    rewrite (Hthree 0%nat). cbn [replicate run foldl calls writer db returned raised].
    by rewrite lookup_delete_eq.
Qed.

Lemma spawn_workers_keeps_jobs count pid hex s :
  ∃ ps s', spawn_workers count pid hex s = (Return ps, s') ∧ jobs s' = jobs s.
Proof.
  destruct (ensure_db_run s) as (s1 & Hdb & Hjobs & _).
  set (s2 := with_control (update_value "shutdown" "0") s1).
  destruct (spawn_loop_run pid hex (Z.to_nat count) 0 s2) as (ps & Hrun & _).
  exists ps, s2. split; [|done].
  unfold spawn_workers. unfold bind at 1. rewrite Hdb.
  unfold bind, modify. fold s2. by rewrite Hrun.
Qed.

(** ** Who writes [state] and [locked_by] (claim C9) *)

Lemma ensure_db_then {X} (k : M X) s :
  ∃ s1, (ensure_db;; k) s = k s1 ∧ jobs s1 = jobs s.
Proof.
  destruct (ensure_db_run s) as (s1 & Hdb & Hjobs & _).
  exists s1. split; [|done]. unfold bind. by rewrite Hdb.
Qed.

(** What submission does to the jobs table. *)
Lemma enqueue_job_cases req prio now uuid4 s :
  match enqueue_job req prio now uuid4 s with
  | (Return _, s') =>
      ∃ new, jobs s' = (jobs s ++ [new])%list
             ∧ existsb (has_id (id new)) (jobs s) = false
             ∧ locked_by new = None ∧ locked_at new = None
             ∧ state_of_name (default "pending" (req_state req)) = Some (state new)
  | (Raise _, s') => jobs s' = jobs s
  end.
Proof.
  unfold enqueue_job.
  destruct (ensure_db_then
              (match req_command req with
               | Some cmd =>
                   bind_ints [default 0 (req_attempts req);
                              default 3 (req_max_retries req); prio];;
                   do s <- get;
                   match state_of_name (default "pending" (req_state req)) with
                   | Some st' =>
                       if existsb (has_id (default (Some uuid4) (req_id req))) (jobs s)
                       then raise IntegrityError
                       else modify (with_jobs (λ tbl,
                              (tbl ++ [mkJob (default (Some uuid4) (req_id req)) cmd st'
                                         (default 0 (req_attempts req))
                                         (default 3 (req_max_retries req))
                                         (default now (req_created_at req))
                                         (default now (req_updated_at req))
                                         None None None None prio
                                         None None None None])%list))
                   | None => raise IntegrityError
                   end
               | None => raise (KeyError "command")
               end) s) as (s1 & -> & Hjobs).
  destruct (req_command req) as [cmd|]; [|done].
  unfold bind, bind_ints. destruct (forallb is_int64 _); [|done]. run_M.
  destruct (state_of_name (default "pending" (req_state req))) as [st'|] eqn:Hst;
    [|done].
  destruct (existsb _ (jobs s1)) eqn:Hex; [done|]. simpl.
  eexists. rewrite Hjobs in *. split; [reflexivity|]. simpl.
  by repeat split.
Qed.

(** Claim C9, as the code has it.  Submission never changes a row that
    exists: when it succeeds the table has one more row, with the lock
    fields NULL and the state the request names (pending when it names
    none); when it raises the table is unchanged.  Setting a
    configuration value, starting workers and stopping workers leave the
    jobs table unchanged. *)
Theorem submission_adds_one_unlocked_row
    (req : job_request) (prio : Z) (now : timestamp) (uuid4 : string) (s : store) :
  match enqueue_job req prio now uuid4 s with
  | (Return _, s') =>
      ∃ new, jobs s' = (jobs s ++ [new])%list
             ∧ locked_by new = None ∧ locked_at new = None
             ∧ state_of_name (default "pending" (req_state req)) = Some (state new)
             ∧ (req_state req = None → state new = Pending)
  | (Raise _, s') => jobs s' = jobs s
  end
  ∧ (∀ key value, jobs (snd (set_config key value s)) = jobs s)
  ∧ (∀ count pid hex, jobs (snd (spawn_workers count pid hex s)) = jobs s)
  ∧ jobs (snd (stop_workers s)) = jobs s.
Proof.
  split; [|split; [|split]].
  - pose proof (enqueue_job_cases req prio now uuid4 s) as H.
    destruct (enqueue_job req prio now uuid4 s) as [[[]|e] s']; [|done].
    destruct H as (new & Hjobs & _ & Hby & Hat & Hst).
    exists new. repeat split; try done.
    intros Hnone. rewrite Hnone in Hst. simpl in Hst. by injection Hst as <-.
  - done.
  - intros count pid hex.
    destruct (spawn_workers_keeps_jobs count pid hex s) as (ps & s' & -> & <-).
    done.
  - unfold stop_workers. destruct (ensure_db_then
      (modify (with_control (update_value "shutdown" "1"))) s) as (s1 & -> & Hjobs).
    done.
Qed.

(** Claim C9 as stated fails: the submitted object may carry a "state"
    key, and the row is inserted in that state. *)
Lemma submission_chooses_state :
  let req := mkRequest (Some (Some "job1")) (Some "true") (Some "processing")
               None None None None in
  let out := enqueue_job req 0 T0 "0f8fad5b" (sample_store []) in
  fst out = Return tt
  ∧ state <$> jobs (snd out) = [Processing]
  ∧ locked_by <$> jobs (snd out) = [None].
Proof. by vm_compute. Qed.

(** ** The primary key is kept *)

Lemma unique_ids_insert tbl new :
  unique_ids tbl → existsb (has_id (id new)) tbl = false →
  unique_ids (tbl ++ [new]).
Proof.
  unfold unique_ids. intros Hu Hex. rewrite omap_app. simpl.
  destruct (id new) as [k|] eqn:Hid; [|by rewrite app_nil_r].
  apply NoDup_app. split; [done|]. split; [|apply NoDup_singleton].
  intros k' Hk' Hin. apply list_elem_of_singleton in Hin as ->.
  apply list_elem_of_omap in Hk' as (j & Hj & Hjk).
  assert (existsb (has_id (Some k)) tbl = true) as Hex'; [|congruence].
  apply existsb_exists. exists j. split; [by apply list_elem_of_In|].
  unfold has_id. by rewrite Hjk, sql_eq_Some_refl.
Qed.

Lemma complete_jobs j b r env s :
  jobs (snd (complete j b r env s)) = jobs s
  ∨ ∃ f, (∀ x, id (f x) = id x)
         ∧ jobs (snd (complete j b r env s)) = sql_update (has_id (id j)) f (jobs s).
Proof.
  unfold complete, bind_ints, bind, get, modify, lift, ret, raise.
  destruct (res_rc r =? 0).
  - destruct (forallb is_int64 _); [|by left]. right.
    by exists (set_completed r (elapsed_ms env) (clock_done env)).
  - destruct (fetch_by_id (id j) (jobs s)) as [cur|]; [|by left].
    destruct (max_retries cur <? attempts cur + 1).
    + destruct (forallb is_int64 _); [|by left]. right.
      by exists (set_dead (attempts cur + 1) r (elapsed_ms env) (clock_done env)).
    + destruct (datetime_add_seconds _ _) as [next_run|e]; [|by left].
      destruct (forallb is_int64 _); [|by left]. right.
      by exists (set_failed (attempts cur + 1) r (elapsed_ms env) next_run
                   (clock_done env)).
Qed.

Lemma run_job_jobs w j env s :
  jobs (snd (run_job w j env s)) = jobs s
  ∨ ∃ f, (∀ x, id (f x) = id x)
         ∧ jobs (snd (run_job w j env s)) = sql_update (has_id (id j)) f (jobs s).
Proof.
  unfold run_job, get_config. run_M.
  destruct (config s !! "backoff_base") as [base_text|]; [|by left].
  destruct (py_int_of_string base_text) as [b|e]; [|by left].
  cbn [config with_workers].
  destruct (config s !! "job_timeout_sec") as [timeout_text|]; [|by left].
  destruct (py_int_of_string timeout_text) as [t|e]; [|by left].
  destruct (execute (command j) t (child env)) as [r|e]; [|by left].
  pose proof (complete_jobs j b r env
                (with_workers (alter (set_busy (id j) (clock_start env)) w) s)) as H.
  destruct (complete j b r env _) as [[[]|e] s2]; exact H.
Qed.

(** Every operation that writes the jobs table keeps the primary key. *)
Lemma primary_key_kept s :
  unique_ids (jobs s) →
  (∀ w now, unique_ids (jobs (snd (acquire_job w now s))))
  ∧ (∀ w j env, unique_ids (jobs (snd (run_job w j env s))))
  ∧ (∀ job_id now, unique_ids (jobs (snd (dlq_retry job_id now s))))
  ∧ (∀ req prio now uuid4, unique_ids (jobs (snd (enqueue_job req prio now uuid4 s)))).
Proof.
  intros Hu. split; [|split; [|split]].
  - intros w now. rewrite acquire_job_eq.
    destruct (select_claimable now (jobs s)) as [row|]; [|done]. cbn zeta.
    destruct (negb _); [done|].
    destruct (fetch_by_id _ _); simpl; by apply unique_ids_update.
  - intros w j env.
    destruct (run_job_jobs w j env s) as [->|(f & Hf & ->)];
      [done|by apply unique_ids_update].
  - intros job_id now. unfold dlq_retry.
    destruct (ensure_db_then
      (do s0 <- get;
       match List.find (λ j, has_id (Some job_id) j && is_dead (state j)) (jobs s0) with
       | Some _ =>
           modify (with_jobs (sql_update (has_id (Some job_id)) (set_requeued now)))
       | None => raise (SystemExit 1)
       end) s) as (s1 & -> & Hjobs).
    run_M. rewrite <- Hjobs in Hu.
    destruct (List.find _ _); simpl; [by apply unique_ids_update|done].
  - intros req prio now uuid4.
    pose proof (enqueue_job_cases req prio now uuid4 s) as H.
    destruct (enqueue_job req prio now uuid4 s) as [[[]|e] s']; simpl.
    + destruct H as (new & -> & Hex & _). by apply unique_ids_insert.
    + by rewrite H.
Qed.

(** ** Counting the retries *)

Lemma run_job_exited w j env s base_text b timeout_text t rc out err :
  config s !! "backoff_base" = Some base_text →
  py_int_of_string base_text = Return b →
  config s !! "job_timeout_sec" = Some timeout_text →
  py_int_of_string timeout_text = Return t →
  has_nul (command j) = false →
  child env = Exited rc out err →
  run_job w j env s
  = match complete j b (mkResult rc out err) env
            (with_workers (alter (set_busy (id j) (clock_start env)) w) s) with
    | (Return _, s2) =>
        (Return tt, with_workers (alter (set_idle (clock_idle env)) w) s2)
    | (Raise e, s2) => (Raise e, s2)
    end.
Proof.
  intros Hb Hbv Ht Htv Hnul Hchild.
  unfold run_job, get_config, execute, subprocess_run.
  unfold bind at 1. unfold modify at 1.
  unfold bind at 1. unfold bind at 1. unfold get at 1.
  cbn [config with_workers]. rewrite Hb. unfold ret at 1.
  unfold bind at 1. unfold lift at 1. rewrite Hbv.
  unfold bind at 1. unfold bind at 1. unfold get at 1.
  cbn [config with_workers]. rewrite Ht. unfold ret at 1.
  unfold bind at 1. unfold lift at 1. rewrite Htv.
  unfold bind at 1. unfold lift at 1. rewrite Hnul, Hchild.
  unfold bind at 1.
  destruct (complete _ _ _ _ _) as [[[]|e] s2]; reflexivity.
Qed.

Lemma acquire_job_single w now s j k :
  jobs s = [j] → id j = Some k → eligible now j = true →
  acquire_job w now s
  = (Return (Some (set_processing w now j)),
     with_jobs (λ _, [set_processing w now j]) s).
Proof.
  intros Hjobs Hid He. rewrite acquire_job_eq, Hjobs.
  assert (claim_guard (id j) j = true) as Hg.
  { unfold claim_guard. rewrite Hid, sql_eq_Some_refl.
    unfold eligible in He. by apply andb_true_iff in He as [-> _]. }
  unfold select_claimable. cbn [List.filter]. rewrite He. cbn [first_row].
  cbn zeta. unfold rowcount, sql_update. cbn [List.filter map]. rewrite Hg.
  cbn [length Nat.eqb negb]. unfold fetch_by_id. cbn [List.find].
  rewrite set_processing_id, Hid, sql_eq_Some_refl.
  unfold with_jobs. rewrite Hjobs. cbn [map]. rewrite Hid in Hg. by rewrite Hg.
Qed.

Section retries.

Variables (w k : string) (b r t : Z).

(** One cycle whose command exits with a code other than 0. *)
Lemma attempt_cycle_fails s j now env rc out err :
  holds_job k b r t s j → eligible now j = true →
  child env = Exited rc out err → rc ≠ 0 →
  forallb is_int64 [attempts j + 1; rc; elapsed_ms env] = true →
  (attempts j + 1 ≤ r →
   datetime_add_seconds (clock_retry env) (b ^ Z.max (attempts j + 1) 0)
   ≠ Raise OverflowError) →
  ∃ s' j',
    attempt_cycle w now env s = (Return (Some (set_processing w now j)), s')
    ∧ holds_job k b r t s' j'
    ∧ attempts j' = attempts j + 1
    ∧ if r <? attempts j + 1 then state j' = Dead
      else state j' = Failed
           ∧ next_run_at j'
             = Some (clock_retry env + b ^ Z.max (attempts j + 1) 0 * US_PER_SECOND).
Proof.
  intros (Hjobs & Hid & Hmax & Hnul & (base_text & Hb & Hbv) & (timeout_text & Ht & Htv))
         He Hchild Hrc Hint Hrep.
  unfold attempt_cycle. unfold bind at 1.
  rewrite (acquire_job_single w now s j k Hjobs Hid He).
  set (j1 := set_processing w now j).
  set (s1 := with_jobs (λ _, [j1]) s).
  unfold bind at 1.
  rewrite (run_job_exited w j1 env s1 base_text b timeout_text t rc out err);
    try done.
  set (s2 := with_workers _ s1).
  assert (fetch_by_id (id j1) (jobs s2) = Some j1) as Hq.
  { unfold fetch_by_id. simpl. by rewrite Hid, sql_eq_Some_refl. }
  assert (∀ f, (∀ x, id (f x) = id x) →
               sql_update (has_id (id j1)) f (jobs s2) = [f j1]) as Hup.
  { intros f Hf. unfold sql_update, has_id. simpl.
    by rewrite Hid, sql_eq_Some_refl. }
  destruct (Z.ltb_spec r (attempts j + 1)) as [Hlt|Hle].
  - rewrite (complete_dead j1 b _ env s2 j1 Hq) by (simpl; (done || lia)).
    eexists _, (set_dead (attempts j + 1) (mkResult rc out err) (elapsed_ms env)
                  (clock_done env) j1).
    split; [reflexivity|]. split.
    + unfold holds_job. cbn [jobs config with_workers with_jobs].
      rewrite Hup by done. repeat split; eauto.
    + split; [done|]. destruct (Z.ltb_spec r (attempts j + 1)); [done|lia].
  - specialize (Hrep Hle).
    destruct (datetime_add_seconds_cases (clock_retry env)
                (b ^ Z.max (attempts j + 1) 0)) as [Hadd|Hadd]; [|done].
    rewrite (complete_failed j1 b (mkResult rc out err) env s2 j1 Hq Hrc
               (clock_retry env + b ^ Z.max (attempts j + 1) 0 * US_PER_SECOND));
      [|simpl; lia|exact Hadd|done].
    eexists _, (set_failed (attempts j + 1) (mkResult rc out err) (elapsed_ms env)
                  (clock_retry env + b ^ Z.max (attempts j + 1) 0 * US_PER_SECOND)
                  (clock_done env) j1).
    split; [reflexivity|]. split.
    + unfold holds_job. cbn [jobs config with_workers with_jobs].
      rewrite Hup by done. repeat split; eauto.
    + split; [done|]. destruct (Z.ltb_spec r (attempts j + 1)); [lia|done].
Qed.

(** A job whose every attempt fails has, after [m] failed attempts,
    [attempts] grown by [m]; it is failed while the count is within the
    limit and dead with the first attempt beyond it, after which no
    attempt follows. *)
Lemma failing_run_counts n next envs :
  failing_run b r n next envs →
  ∀ s j,
    holds_job k b r t s j → attempts j = n → next_run_at j = next →
    claimable (state j) = true →
    ∃ s' j',
      attempt_cycles w envs s = (Return tt, s')
      ∧ holds_job k b r t s' j'
      ∧ attempts j' = n + Z.of_nat (length envs)
      ∧ (envs ≠ [] → state j' = if r <? attempts j' then Dead else Failed)
      ∧ n + Z.of_nat (length envs) ≤ Z.max (n + 1) (r + 1).
Proof.
  induction 1 as [n next|n next now env rest rc out err Hdue Hchild Hrc Hint Hle Hrep _ IH
                 |n next now env rc out err Hdue Hchild Hrc Hint Hlt];
    intros s j Hs Hn Hnext Hcl.
  - exists s, j. simpl.
    split; [done|]. split; [done|]. split; [lia|]. split; [done|lia].
  - assert (eligible now j = true) as He.
    { unfold eligible, due. rewrite Hcl, Hnext. simpl.
      destruct next as [t0|]; [|done]. specialize (Hdue t0 eq_refl). lia. }
    destruct (attempt_cycle_fails s j now env rc out err Hs He Hchild Hrc)
      as (s1 & j1 & Hrun & Hs1 & Hn1 & Hst1); rewrite ?Hn; [done|done|].
    rewrite Hn in Hn1, Hst1.
    destruct (Z.ltb_spec r (n + 1)) as [?|_]; [lia|]. destruct Hst1 as [Hst1 Hnext1].
    destruct (IH s1 j1 Hs1 Hn1 Hnext1) as (s' & j' & Hrest & Hs' & Hn' & Hst' & Hbound).
    { by rewrite Hst1. }
    exists s', j'. split.
    { simpl. unfold bind. by rewrite Hrun. }
    split; [done|]. split; [rewrite Hn'; simpl length; lia|].
    split.
    + intros _. destruct rest as [|e rest]; [|by apply Hst'].
      simpl in Hrest. injection Hrest as <-.
      destruct Hs as (Hj & _), Hs' as (Hj' & _), Hs1 as (Hj1 & _).
      rewrite Hj1 in Hj'. injection Hj' as <-.
      rewrite Hn1. destruct (Z.ltb_spec r (n + 1)); [lia|done].
    + simpl length. lia.
  - assert (eligible now j = true) as He.
    { unfold eligible, due. rewrite Hcl, Hnext. simpl.
      destruct next as [t0|]; [|done]. specialize (Hdue t0 eq_refl). lia. }
    destruct (attempt_cycle_fails s j now env rc out err Hs He Hchild Hrc)
      as (s1 & j1 & Hrun & Hs1 & Hn1 & Hst1); rewrite ?Hn; [done|lia|].
    rewrite Hn in Hn1, Hst1.
    exists s1, j1. split.
    { simpl. unfold bind. by rewrite Hrun. }
    split; [done|]. split; [simpl length; lia|].
    split; [|simpl length; lia].
    intros _. rewrite Hn1. destruct (Z.ltb_spec r (n + 1)); [done|lia].
Qed.

End retries.

(** From a fresh job: it is dead after exactly [r + 1] failed attempts.
    A run of failed attempts has at most [r + 1] of them, the job is
    failed after each of the first [r] and dead after attempt [r + 1],
    and a dead job is claimed by no later call. *)
Lemma retries_until_dead w k b r t envs s j :
  0 ≤ r →
  holds_job k b r t s j → attempts j = 0 → state j = Pending → next_run_at j = None →
  failing_run b r 0 None envs →
  ∃ s' j',
    attempt_cycles w envs s = (Return tt, s')
    ∧ jobs s' = [j']
    ∧ attempts j' = Z.of_nat (length envs)
    ∧ Z.of_nat (length envs) ≤ r + 1
    ∧ (0 < Z.of_nat (length envs) ≤ r → state j' = Failed)
    ∧ (Z.of_nat (length envs) = r + 1 →
       state j' = Dead ∧ ∀ w' now, acquire_job w' now s' = (Return None, s')).
Proof.
  intros Hr Hs Hn Hst Hnext Hrun.
  destruct (failing_run_counts w k b r t 0 None envs Hrun s j Hs Hn Hnext)
    as (s' & j' & Hcycles & Hs' & Hn' & Hst' & Hbound); [by rewrite Hst|].
  exists s', j'. split; [done|]. destruct Hs' as (Hjobs & _).
  split; [done|]. split; [lia|]. split; [lia|].
  assert (envs ≠ [] → state j' = if r <? attempts j' then Dead else Failed) as Hstate
    by done.
  split.
  - intros Hlen. rewrite Hstate by (intros ->; simpl in Hlen; lia).
    destruct (Z.ltb_spec r (attempts j')); [lia|done].
  - intros Hlen.
    assert (state j' = Dead) as Hdead.
    { rewrite Hstate by (intros ->; simpl in Hlen; lia).
      destruct (Z.ltb_spec r (attempts j')); [done|lia]. }
    split; [done|]. intros w' now. rewrite acquire_job_eq, Hjobs.
    unfold select_claimable, eligible. simpl. by rewrite Hdead.
Qed.

(** The retry scenario: [max_retries = 1], base 2.  The first failure
    leaves the job failed with one attempt, due two seconds later; the
    second, ten seconds on, makes it dead with two attempts. *)
Example retry_scenario :
  ∃ s' j',
    attempt_cycles "w1"
      [(T1, sample_env (Exited 1 "" ""));
       (T1 + 10 * US_PER_SECOND, sample_env (Exited 1 "" ""))]
      (sample_store [sample_job (Some "job1") Pending 0 1 0])
    = (Return tt, s')
    ∧ jobs s' = [j'] ∧ attempts j' = 2 ∧ state j' = Dead.
Proof.
  destruct (retries_until_dead "w1" "job1" 2 1 0
              [(T1, sample_env (Exited 1 "" ""));
               (T1 + 10 * US_PER_SECOND, sample_env (Exited 1 "" ""))]
              (sample_store [sample_job (Some "job1") Pending 0 1 0])
              (sample_job (Some "job1") Pending 0 1 0))
    as (s' & j' & Hrun & Hjobs & Hn & _ & _ & Hdead); try done.
  - unfold holds_job. repeat split; try done; by eexists.
  - eapply failing_retry; try done.
    eapply failing_last; try done.
    intros t [= <-]. by vm_compute.
  - exists s', j'. repeat split; try done. by apply Hdead.
Qed.

(** ** The retry limit (claim C4) *)

(** Claim C4, at a failing input.  The delay of a retry is added to the
    clock as a [timedelta]; when the sum leaves the range of [datetime]
    the addition raises [OverflowError], which [run_job] does not handle.
    With a configured base of 10^12 the first failure of a job with
    [max_retries = 3] already does so, and with the default base 2 the
    38th failure of a job with [max_retries = 38]: the call raises, the
    row stays in processing with its attempts not counted, no later claim
    returns it, and it never becomes dead.  (Where every retry instant is
    representable the count is the claimed one: [retries_until_dead].) *)
Theorem retry_delay_overflow_strands_job :
  (let out := run_job "w1" (sample_job (Some "job1") Processing 0 3 0)
                (sample_env (Exited 1 "" "")) huge_base_store in
   fst out = Raise OverflowError
   ∧ state <$> jobs (snd out) = [Processing]
   ∧ attempts <$> jobs (snd out) = [0]
   ∧ ∀ w now, fst (acquire_job w now (snd out)) = Return None)
  ∧ (let out := run_job "w1" (sample_job (Some "job1") Processing 37 38 0)
                  (sample_env (Exited 1 "" "")) late_attempt_store in
     fst out = Raise OverflowError
     ∧ state <$> jobs (snd out) = [Processing]
     ∧ attempts <$> jobs (snd out) = [37]
     ∧ ∀ w now, fst (acquire_job w now (snd out)) = Return None).
Proof.
  split.
  - split; [by vm_compute|]. split; [by vm_compute|]. split; [by vm_compute|].
    intros w now. reflexivity.
  - split; [by vm_compute|]. split; [by vm_compute|]. split; [by vm_compute|].
    intros w now. reflexivity.
Qed.


(** * Further properties of the code *)

(** ** Schema and configuration *)

Lemma insert_or_ignore_lookup k v (m : gmap string string) k' :
  insert_or_ignore k v m !! k'
  = if decide (k = k') then Some (default v (m !! k)) else m !! k'.
Proof.
  unfold insert_or_ignore. destruct (m !! k) as [x|] eqn:E.
  - case_decide; [by subst|done].
  - rewrite lookup_insert. by case_decide.
Qed.

Lemma insert_or_ignore_present k v (m : gmap string string) :
  is_Some (m !! k) → insert_or_ignore k v m = m.
Proof. intros [x Hx]. unfold insert_or_ignore. by rewrite Hx. Qed.

Lemma ensure_db_eq s :
  ensure_db s
  = (Return tt,
     mkStore (jobs s)
       (insert_or_ignore "job_timeout_sec" "0"
          (insert_or_ignore "max_retries_default" "3"
             (insert_or_ignore "backoff_base" "2" (config s))))
       (workers s)
       (insert_or_ignore "shutdown" "0" (control s))).
Proof. reflexivity. Qed.

(** X1.  [ensure_db] never raises and never overwrites: every
    configuration and control entry that exists keeps its value, the
    three configuration keys and the shutdown flag are there afterwards
    (with their defaults "2", "3", "0" and "0" where they were missing),
    no other key appears, jobs and workers are untouched, and running it
    again changes nothing. *)
Theorem ensure_db_only_adds_defaults (s : store) :
  ∃ s1, ensure_db s = (Return tt, s1)
    ∧ jobs s1 = jobs s ∧ workers s1 = workers s
    ∧ (∀ k v, config s !! k = Some v → config s1 !! k = Some v)
    ∧ (∀ k v, control s !! k = Some v → control s1 !! k = Some v)
    ∧ config s1 !! "backoff_base" = Some (default "2" (config s !! "backoff_base"))
    ∧ config s1 !! "max_retries_default"
      = Some (default "3" (config s !! "max_retries_default"))
    ∧ config s1 !! "job_timeout_sec"
      = Some (default "0" (config s !! "job_timeout_sec"))
    ∧ control s1 !! "shutdown" = Some (default "0" (control s !! "shutdown"))
    ∧ (∀ k, k ≠ "backoff_base" → k ≠ "max_retries_default" → k ≠ "job_timeout_sec" →
            config s1 !! k = config s !! k)
    ∧ (∀ k, k ≠ "shutdown" → control s1 !! k = control s !! k)
    ∧ ensure_db s1 = (Return tt, s1).
Proof.
  eexists. split; [apply ensure_db_eq|]. cbn [jobs workers config control].
  split; [done|]. split; [done|].
  split.
  { intros k v Hk. rewrite !insert_or_ignore_lookup.
    repeat case_decide; subst; by rewrite ?Hk. }
  split.
  { intros k v Hk. rewrite insert_or_ignore_lookup.
    case_decide; subst; by rewrite ?Hk. }
  split; [by rewrite !insert_or_ignore_lookup|].
  split; [by rewrite !insert_or_ignore_lookup|].
  split; [by rewrite !insert_or_ignore_lookup|].
  split; [by rewrite !insert_or_ignore_lookup|].
  split.
  { intros k H1 H2 H3. rewrite !insert_or_ignore_lookup. by repeat case_decide. }
  split.
  { intros k H1. rewrite insert_or_ignore_lookup. by case_decide. }
  rewrite ensure_db_eq. cbn [jobs workers config control]. do 2 f_equal.
  - rewrite (insert_or_ignore_present "backoff_base")
      by (rewrite !insert_or_ignore_lookup; by eexists).
    rewrite (insert_or_ignore_present "max_retries_default")
      by (rewrite !insert_or_ignore_lookup; by eexists).
    apply insert_or_ignore_present. rewrite !insert_or_ignore_lookup. by eexists.
  - apply insert_or_ignore_present. rewrite !insert_or_ignore_lookup. by eexists.
Qed.

Lemma ensure_db_only_adds_defaults_witness :
  ∃ s1, ensure_db (mkStore [] {[ "backoff_base" := "5" ]} ∅ ∅) = (Return tt, s1)
    ∧ config s1 !! "backoff_base" = Some "5"
    ∧ config s1 !! "job_timeout_sec" = Some "0"
    ∧ control s1 !! "shutdown" = Some "0".
Proof.
  destruct (ensure_db_only_adds_defaults (mkStore [] {[ "backoff_base" := "5" ]} ∅ ∅))
    as (s1 & Hrun & _ & _ & Hkeep & _ & _ & _ & Htimeout & Hflag & _).
  exists s1. split; [exact Hrun|]. split; [by apply Hkeep|]. by split.
Defined.

(** X2.  A value written by [set_config] is the one [get_config] reads,
    also after [ensure_db] has run in between; other keys read as before;
    a key that is not in the table raises [KeyError] with that key and
    leaves the store as it is. *)
Theorem config_set_then_get (key value : string) (s : store) :
  (set_config key value;; get_config key) s
  = (Return value, with_config <[key := value]> s)
  ∧ fst ((set_config key value;; ensure_db;; get_config key) s) = Return value
  ∧ (∀ other, other ≠ key →
       fst ((set_config key value;; get_config other) s) = fst (get_config other s))
  ∧ (config s !! key = None → get_config key s = (Raise (KeyError key), s)).
Proof.
  split; [|split; [|split]].
  - unfold set_config, get_config. run_M. by rewrite lookup_insert_eq.
  - unfold set_config, get_config. unfold bind at 1. unfold modify at 1.
    unfold bind at 1. rewrite ensure_db_eq. unfold bind, get.
    cbn [config with_config]. rewrite !insert_or_ignore_lookup.
    repeat case_decide; simplify_eq; by rewrite ?lookup_insert_eq.
  - intros other Hne. unfold set_config, get_config. run_M.
    rewrite lookup_insert_ne by done. by destruct (config s !! other).
  - intros Hnone. unfold get_config. run_M. by rewrite Hnone.
Qed.

Lemma config_set_then_get_witness :
  fst ((set_config "backoff_base" "3";; get_config "job_timeout_sec")
         (sample_store []))
  = Return "0"
  ∧ get_config "retries" (sample_store []) = (Raise (KeyError "retries"), sample_store []).
Proof.
  destruct (config_set_then_get "backoff_base" "3" (sample_store []))
    as (_ & _ & Hother & _).
  destruct (config_set_then_get "retries" "3" (sample_store []))
    as (_ & _ & _ & Hmissing).
  split; [rewrite Hother; [reflexivity|discriminate]|].
  apply Hmissing. reflexivity.
Defined.


Lemma Sorted_take {A} (R : relation A) (l : list A) n :
  Sorted R l → Sorted R (take n l).
Proof.
  intros H. revert n. induction H as [|x l Hl IH Hhd]; intros [|n]; simpl;
    try constructor.
  - apply IH.
  - destruct Hhd as [|y l' Hxy]; destruct n; simpl; by constructor.
Qed.

Lemma by_key_total : Total by_key.
Proof. intros a b. apply String.leb_total. Qed.

(** X3.  [config get] never raises.  With a key that is not the empty
    string it prints that key alone, with its value, or with null when
    the key is not configured.  Without a key, or with the empty string,
    it prints every configured entry once, in the order of the keys. *)
Theorem config_get_prints (key : option string) (s : store) :
  ∃ out s',
    config_get key s = (Return out, s') ∧ ensure_db s = (Return tt, s')
    ∧ match key with
      | Some (String c k) => out = [(String c k, config s' !! String c k)]
      | _ =>
          Sorted (λ a b, String.leb a b = true) (fst <$> out)
          ∧ NoDup (fst <$> out)
          ∧ ∀ k o, (k, o) ∈ out ↔ ∃ v, o = Some v ∧ config s' !! k = Some v
      end.
Proof.
  assert (∀ s', let out := map (λ kv : string * string, (fst kv, Some (snd kv)))
                             (merge_sort by_key (map_to_list (config s'))) in
          Sorted (λ a b, String.leb a b = true) (fst <$> out)
          ∧ NoDup (fst <$> out)
          ∧ ∀ k o, (k, o) ∈ out ↔ ∃ v, o = Some v ∧ config s' !! k = Some v) as Hall.
  { intros s' out. unfold out.
    assert (fst <$> map (λ kv : string * string, (fst kv, Some (snd kv)))
                      (merge_sort by_key (map_to_list (config s')))
            = fst <$> merge_sort by_key (map_to_list (config s'))) as ->.
    { rewrite <- list_fmap_compose. by apply list_fmap_ext. }
    split; [|split].
    - apply (Sorted_fmap fst by_key); [by intros ?? H|].
      apply Sorted_merge_sort, by_key_total.
    - rewrite merge_sort_Permutation. apply NoDup_fst_map_to_list.
    - intros k o. rewrite list_elem_of_fmap. split.
      + intros ([k' v] & [= -> ->] & Hin). exists v. split; [done|].
        rewrite merge_sort_Permutation in Hin. by apply elem_of_map_to_list in Hin.
      + intros (v & -> & Hk). exists (k, v). split; [done|].
        rewrite merge_sort_Permutation. by apply elem_of_map_to_list. }
  unfold config_get. rewrite ensure_db_eq.
  set (s' := mkStore _ _ _ _).
  destruct key as [[|c k]|].
  - eexists _, s'. unfold bind. rewrite ensure_db_eq. fold s'.
    split; [reflexivity|]. split; [done|]. apply Hall.
  - exists [(String c k, config s' !! String c k)], s'.
    unfold bind. rewrite ensure_db_eq. fold s'.
    unfold get_config, bind, get.
    by destruct (config s' !! String c k) as [v|].
  - eexists _, s'. unfold bind. rewrite ensure_db_eq. fold s'.
    split; [reflexivity|]. split; [done|]. apply Hall.
Qed.


(** ** Submission *)

Lemma enqueue_job_eq req prio now uuid4 s :
  enqueue_job req prio now uuid4 s
  = let s1 := snd (ensure_db s) in
    match req_command req with
    | None => (Raise (KeyError "command"), s1)
    | Some cmd =>
        if forallb is_int64 [default 0 (req_attempts req);
                             default 3 (req_max_retries req); prio]
        then match state_of_name (default "pending" (req_state req)) with
             | None => (Raise IntegrityError, s1)
             | Some st =>
                 if existsb (has_id (default (Some uuid4) (req_id req))) (jobs s)
                 then (Raise IntegrityError, s1)
                 else (Return tt,
                       with_jobs (λ tbl, (tbl ++ [new_row req prio now uuid4 cmd st])%list)
                         s1)
             end
        else (Raise OverflowError, s1)
    end.
Proof.
  unfold enqueue_job. unfold bind at 1. rewrite ensure_db_eq. cbn zeta. cbn [snd].
  destruct (req_command req) as [cmd|]; [|done].
  unfold bind_ints, bind. destruct (forallb is_int64 _); [|done].
  unfold ret, get. cbn [jobs].
  destruct (state_of_name _); [|done].
  by destruct (existsb _ _).
Qed.

Lemma existsb_has_id k tbl :
  existsb (has_id (Some k)) tbl = true ↔ ∃ j, j ∈ tbl ∧ id j = Some k.
Proof.
  rewrite existsb_exists. split.
  - intros (j & Hin & Hid). exists j. split; [by apply list_elem_of_In|].
    unfold has_id in Hid. by apply sql_eq_true in Hid as (k' & -> & [= <-]).
  - intros (j & Hin & Hid). exists j. split; [by apply list_elem_of_In|].
    unfold has_id. by rewrite Hid, sql_eq_Some_refl.
Qed.

Lemma existsb_has_id_null tbl : existsb (has_id None) tbl = false.
Proof.
  induction tbl as [|a tbl IH]; [done|]. simpl. unfold has_id at 1.
  by rewrite sql_eq_None_r.
Qed.

(** X4.  [enqueue_job] succeeds exactly when the object has a "command",
    its integers fit 64 bits, its state (pending when absent) is one of
    the five names, and no row has its id; an object with a null id
    never collides.  The row it appends takes id, state, attempts,
    max_retries, created_at and updated_at from the object, or the
    defaults (the generated uuid, pending, 0, 3, now, now), the given
    priority, and NULL everywhere else.  Without "command" the error is
    [KeyError], for a taken id [IntegrityError]. *)
Theorem enqueue_job_succeeds_exactly_when
    (req : job_request) (prio : Z) (now : timestamp) (uuid4 : string) (s : store) :
  ((∃ s', enqueue_job req prio now uuid4 s = (Return tt, s'))
   ↔ (∃ cmd st,
        req_command req = Some cmd
        ∧ forallb is_int64 [default 0 (req_attempts req);
                            default 3 (req_max_retries req); prio] = true
        ∧ state_of_name (default "pending" (req_state req)) = Some st
        ∧ ∀ k, default (Some uuid4) (req_id req) = Some k →
               ∀ j, j ∈ jobs s → id j ≠ Some k))
  ∧ (∀ s', enqueue_job req prio now uuid4 s = (Return tt, s') →
       ∃ cmd st,
         req_command req = Some cmd
         ∧ state_of_name (default "pending" (req_state req)) = Some st
         ∧ jobs s' = (jobs s ++ [new_row req prio now uuid4 cmd st])%list)
  ∧ (req_command req = None →
       fst (enqueue_job req prio now uuid4 s) = Raise (KeyError "command"))
  ∧ (∀ cmd st k j,
       req_command req = Some cmd →
       forallb is_int64 [default 0 (req_attempts req);
                         default 3 (req_max_retries req); prio] = true →
       state_of_name (default "pending" (req_state req)) = Some st →
       req_id req = Some (Some k) → j ∈ jobs s → id j = Some k →
       fst (enqueue_job req prio now uuid4 s) = Raise IntegrityError).
Proof.
  rewrite enqueue_job_eq. cbn zeta.
  set (jid := default (Some uuid4) (req_id req)).
  assert (existsb (has_id jid) (jobs s) = false
          ↔ ∀ k, jid = Some k → ∀ j, j ∈ jobs s → id j ≠ Some k) as Hfresh.
  { destruct jid as [k|].
    - split.
      + intros Hex k' [= <-] j Hin Hid.
        assert (existsb (has_id (Some k)) (jobs s) = true); [|congruence].
        apply existsb_has_id. eauto.
      + intros Hall. destruct (existsb _ _) eqn:Hex; [|done].
        apply existsb_has_id in Hex as (j & Hin & Hid). by destruct (Hall k eq_refl j Hin).
    - split; [done|]. intros _. apply existsb_has_id_null. }
  split; [|split; [|split]].
  - split.
    + intros (s' & Hrun).
      destruct (req_command req) as [cmd|]; [|done].
      destruct (forallb is_int64 _); [|done].
      destruct (state_of_name _) as [st|]; [|done].
      destruct (existsb _ _) eqn:Hex; [done|].
      exists cmd, st. repeat split; try done. by apply Hfresh.
    + intros (cmd & st & -> & -> & -> & Hall).
      apply Hfresh in Hall. rewrite Hall. by eexists.
  - intros s' Hrun.
    destruct (req_command req) as [cmd|]; [|done].
    destruct (forallb is_int64 _); [|done].
    destruct (state_of_name _) as [st|]; [|done].
    destruct (existsb _ _) eqn:Hex; [done|].
    injection Hrun as <-. exists cmd, st. by repeat split.
  - by intros ->.
  - intros cmd st k j -> -> -> Hid Hin Hj.
    assert (existsb (has_id jid) (jobs s) = true) as ->; [|done].
    unfold jid. rewrite Hid. simpl. apply existsb_has_id. eauto.
Qed.

Lemma enqueue_job_succeeds_exactly_when_witness :
  ∃ s', enqueue_job
          (mkRequest (Some (Some "job2")) (Some "echo hi") None None None None None)
          0 T0 "0f8fad5b" (sample_store [sample_job (Some "job1") Pending 0 3 0])
        = (Return tt, s').
Proof.
  apply (proj1 (enqueue_job_succeeds_exactly_when _ _ _ _ _)).
  exists "echo hi", Pending. repeat split; try reflexivity.
  intros k [= <-] j Hin Hid. apply list_elem_of_singleton in Hin. subst j.
  discriminate.
Defined.


(** ** Submission and claim together *)

Lemma existsb_false_elem {A} (f : A → bool) (l : list A) x :
  existsb f l = false → x ∈ l → f x = false.
Proof.
  intros Hex Hin. destruct (f x) eqn:Hfx; [|done].
  assert (existsb f l = true); [|congruence].
  apply existsb_exists. exists x. split; [by apply list_elem_of_In|done].
Qed.

Lemma filter_none {A} (f : A → bool) (l : list A) :
  (∀ x, x ∈ l → f x = false) → List.filter f l = [].
Proof.
  induction l as [|a l IH]; intros H; [done|]. simpl.
  rewrite (H a) by apply list_elem_of_here. apply IH.
  intros x Hx. apply H. by apply list_elem_of_further.
Qed.

Lemma sql_update_none p f tbl :
  (∀ x, x ∈ tbl → p x = false) → sql_update p f tbl = tbl.
Proof.
  induction tbl as [|a tbl IH]; intros H; [done|]. simpl.
  rewrite (H a) by apply list_elem_of_here. f_equal. apply IH.
  intros x Hx. apply H. by apply list_elem_of_further.
Qed.

Lemma fetch_by_id_app job_id l1 l2 :
  fetch_by_id job_id (l1 ++ l2)
  = match fetch_by_id job_id l1 with
    | Some j => Some j
    | None => fetch_by_id job_id l2
    end.
Proof.
  unfold fetch_by_id. induction l1 as [|a l1 IH]; [done|]. simpl.
  by destruct (sql_eq (id a) job_id).
Qed.

Lemma fetch_by_id_none job_id tbl :
  (∀ x, x ∈ tbl → has_id job_id x = false) → fetch_by_id job_id tbl = None.
Proof.
  intros H. unfold fetch_by_id. destruct (List.find _ tbl) as [j|] eqn:Hf; [|done].
  apply find_some in Hf as [Hin Hid]. apply list_elem_of_In in Hin.
  specialize (H j Hin). unfold has_id in H. congruence.
Qed.

(** What [acquire_job] does to a table whose last row is the only row
    that can be claimed and whose id no other row has. *)
Lemma acquire_job_last w now s tbl new k :
  jobs s = (tbl ++ [new])%list → id new = Some k →
  (∀ j, j ∈ tbl → eligible now j = false) →
  (∀ j, j ∈ tbl → has_id (Some k) j = false) →
  eligible now new = true →
  acquire_job w now s
  = (Return (Some (set_processing w now new)),
     with_jobs (λ _, (tbl ++ [set_processing w now new])%list) s).
Proof.
  intros Hjobs Hid Hnone Hfresh He.
  assert (claim_guard (Some k) new = true) as Hg.
  { unfold claim_guard. rewrite Hid, sql_eq_Some_refl.
    unfold eligible in He. by apply andb_true_iff in He as [-> _]. }
  assert (∀ j, j ∈ tbl → claim_guard (Some k) j = false) as Hng.
  { intros j Hj. unfold claim_guard. specialize (Hfresh j Hj).
    unfold has_id in Hfresh. by rewrite Hfresh. }
  rewrite acquire_job_eq, Hjobs. unfold select_claimable.
  rewrite List.filter_app, (filter_none _ tbl Hnone). cbn [app List.filter].
  rewrite He. cbn [first_row]. cbn zeta. rewrite Hid.
  unfold rowcount. rewrite List.filter_app, (filter_none _ tbl Hng).
  cbn [app List.filter]. rewrite Hg. cbn [length Nat.eqb negb].
  unfold sql_update at 1. rewrite map_app. fold (sql_update (claim_guard (Some k))
    (set_processing w now) tbl). rewrite (sql_update_none _ _ tbl Hng).
  cbn [map]. rewrite Hg.
  rewrite fetch_by_id_app, (fetch_by_id_none (Some k) tbl Hfresh).
  unfold fetch_by_id. cbn [List.find]. rewrite set_processing_id, Hid, sql_eq_Some_refl.
  f_equal. unfold with_jobs. f_equal. rewrite Hjobs. unfold sql_update.
  rewrite map_app. fold (sql_update (claim_guard (Some k)) (set_processing w now) tbl).
  rewrite (sql_update_none _ _ tbl Hng). cbn [map]. by rewrite Hg.
Qed.

(** X5.  A job submitted in state pending (or with no state) and with an
    id is what the next claim returns when nothing else can be claimed at
    that time: the row comes back as submitted, now processing and locked
    by the claiming worker, and it is the only row that has changed. *)
Theorem submitted_job_is_claimed
    (req : job_request) (prio : Z) (t : timestamp) (uuid4 : string)
    (w : string) (now : timestamp) (s s1 : store) (k : string) :
  enqueue_job req prio t uuid4 s = (Return tt, s1) →
  default (Some uuid4) (req_id req) = Some k →
  default "pending" (req_state req) = "pending" →
  (∀ j, j ∈ jobs s → eligible now j = false) →
  ∃ cmd s2,
    req_command req = Some cmd
    ∧ acquire_job w now s1
      = (Return (Some (set_processing w now (new_row req prio t uuid4 cmd Pending))), s2)
    ∧ jobs s2
      = (jobs s ++ [set_processing w now (new_row req prio t uuid4 cmd Pending)])%list.
Proof.
  intros Hrun Hid Hst Hnone. rewrite enqueue_job_eq in Hrun. cbn zeta in Hrun.
  destruct (req_command req) as [cmd|]; [|done].
  destruct (forallb is_int64 _); [|done].
  rewrite Hst in Hrun. cbn [state_of_name String.eqb Ascii.eqb Bool.eqb] in Hrun.
  destruct (existsb _ (jobs s)) eqn:Hex; [done|]. injection Hrun as <-.
  rewrite Hid in Hex.
  exists cmd. eexists. split; [done|]. split.
  - apply (acquire_job_last w now _ (jobs s) _ k); try done.
    intros j Hj. by apply (existsb_false_elem _ _ j Hex).
  - done.
Qed.

Lemma submitted_job_is_claimed_witness :
  ∃ cmd s2,
    Some "echo hi" = Some cmd
    ∧ acquire_job "w1" T1
        (snd (enqueue_job (mkRequest None (Some "echo hi") None None None None None)
                0 T0 "0f8fad5b" (sample_store [sample_job (Some "job1") Dead 4 3 0])))
      = (Return (Some (set_processing "w1" T1
                         (new_row (mkRequest None (Some "echo hi") None None None None None)
                            0 T0 "0f8fad5b" cmd Pending))), s2)
    ∧ jobs s2
      = [sample_job (Some "job1") Dead 4 3 0;
         set_processing "w1" T1
           (new_row (mkRequest None (Some "echo hi") None None None None None)
              0 T0 "0f8fad5b" cmd Pending)].
Proof.
  apply (submitted_job_is_claimed
           (mkRequest None (Some "echo hi") None None None None None)
           0 T0 "0f8fad5b" "w1" T1
           (sample_store [sample_job (Some "job1") Dead 4 3 0]) _ "0f8fad5b");
    try reflexivity.
  intros j Hj. apply list_elem_of_singleton in Hj. by subst j.
Defined.

(** X6.  A job submitted with a null id, in state pending, with a
    priority above that of every other row, stalls the queue: it is the
    row every claim selects, the guarded UPDATE matches nothing, and
    every later [acquire_job], by any worker at any time, returns [None]
    and leaves the store as it is, whatever else could be claimed. *)
Theorem null_id_job_stalls_the_queue
    (req : job_request) (prio : Z) (t : timestamp) (uuid4 : string) (s s1 : store) :
  enqueue_job req prio t uuid4 s = (Return tt, s1) →
  req_id req = Some None →
  default "pending" (req_state req) = "pending" →
  (∀ j, j ∈ jobs s → priority j < prio) →
  ∀ w now, acquire_job w now s1 = (Return None, s1).
Proof.
  intros Hrun Hid Hst Hprio w now. rewrite enqueue_job_eq in Hrun. cbn zeta in Hrun.
  destruct (req_command req) as [cmd|]; [|done].
  destruct (forallb is_int64 _); [|done].
  rewrite Hst in Hrun. cbn [state_of_name String.eqb Ascii.eqb Bool.eqb] in Hrun.
  destruct (existsb _ (jobs s)) eqn:Hex; [done|]. injection Hrun as <-.
  set (new := new_row req prio t uuid4 cmd Pending).
  rewrite acquire_job_eq. cbn [jobs with_jobs with_control with_config snd].
  destruct (select_claimable now (jobs s ++ [new])) as [row|] eqn:Hsel; [|done].
  apply select_claimable_Some in Hsel as (Hin & He & Hleast).
  assert (row = new) as ->.
  { apply elem_of_app in Hin as [Hin|Hin]; [|by apply list_elem_of_singleton in Hin].
    exfalso. apply (Hleast new).
    - apply elem_of_app. right. apply list_elem_of_here.
    - done.
    - left. simpl. by apply Hprio. }
  cbn zeta. unfold new at 1 2. unfold new_row. cbn [id]. rewrite Hid. cbn [default].
  by rewrite rowcount_null_id.
Qed.

Lemma null_id_job_stalls_the_queue_witness :
  acquire_job "w1" T1
    (snd (enqueue_job (mkRequest (Some None) (Some "echo hi") None None None None None)
            5 T0 "0f8fad5b" (sample_store [sample_job (Some "job1") Pending 0 3 0])))
  = (Return None,
     snd (enqueue_job (mkRequest (Some None) (Some "echo hi") None None None None None)
            5 T0 "0f8fad5b" (sample_store [sample_job (Some "job1") Pending 0 3 0]))).
Proof.
  apply (null_id_job_stalls_the_queue
           (mkRequest (Some None) (Some "echo hi") None None None None None)
           5 T0 "0f8fad5b" (sample_store [sample_job (Some "job1") Pending 0 3 0]));
    try reflexivity.
  intros j Hj. apply list_elem_of_singleton in Hj. subst j. simpl. lia.
Defined.


(** ** What a claim leaves alone *)

(** X7.  A job that cannot be claimed at the time of the call, because
    it is processing, completed or dead, or failed with a [next_run_at]
    still ahead, is not returned by [acquire_job], and its row is
    afterwards exactly as it was. *)
Theorem ineligible_job_is_left_alone
    (w : string) (now : timestamp) (s : store) (k : string) (j0 : job) :
  unique_ids (jobs s) →
  fetch_by_id (Some k) (jobs s) = Some j0 →
  eligible now j0 = false →
  fetch_by_id (Some k) (jobs (snd (acquire_job w now s))) = Some j0
  ∧ ∀ j, fst (acquire_job w now s) = Return (Some j) → id j ≠ Some k.
Proof.
  intros Hu Hq He. rewrite acquire_job_eq.
  destruct (select_claimable now (jobs s)) as [row|] eqn:Hsel; [|by split].
  apply select_claimable_Some in Hsel as (Hin & Hrow & _). cbn zeta.
  destruct (negb _); [by split|].
  assert (claim_guard (id row) j0 = false) as Hng.
  { destruct (claim_guard (id row) j0) eqn:Hg; [|done]. exfalso.
    unfold claim_guard in Hg. apply andb_true_iff in Hg as [Hid _].
    apply sql_eq_true in Hid as (k' & Hid0 & Hidr).
    apply fetch_by_id_Some in Hq as (Hin0 & k0 & Hk0 & [= <-]).
    assert (row = j0) as -> by (eapply unique_ids_inj; eauto; congruence).
    congruence. }
  assert (fetch_by_id (Some k)
            (sql_update (claim_guard (id row)) (set_processing w now) (jobs s))
          = Some j0) as Hq'.
  { rewrite fetch_sql_update, Hq by done. simpl. by rewrite Hng. }
  destruct (fetch_by_id (id row) _) as [j|] eqn:Hf; simpl; (split; [done|]);
    [|done].
  intros j' [= <-] Hid.
  apply fetch_by_id_Some in Hf as (_ & k' & Hk' & Hr).
  assert (k' = k) as -> by congruence.
  apply fetch_by_id_Some in Hq as (Hin0 & k0 & Hk0 & [= <-]).
  assert (row = j0) as -> by (eapply unique_ids_inj; eauto).
  congruence.
Qed.

Lemma ineligible_job_is_left_alone_witness :
  fetch_by_id (Some "done")
    (jobs (snd (acquire_job "w1" T1
                  (sample_store [sample_job (Some "done") Completed 0 3 9;
                                 sample_job (Some "job2") Pending 0 3 0]))))
  = Some (sample_job (Some "done") Completed 0 3 9).
Proof.
  apply (ineligible_job_is_left_alone "w1" T1
           (sample_store [sample_job (Some "done") Completed 0 3 9;
                          sample_job (Some "job2") Pending 0 3 0])
           "done" (sample_job (Some "done") Completed 0 3 9)); try reflexivity.
  unfold unique_ids. simpl. apply NoDup_cons. split; [|apply NoDup_singleton].
  intros H. apply list_elem_of_singleton in H. discriminate.
Defined.

(** X8.  [acquire_job] adds and removes no row and touches nothing but
    the jobs table: configuration, workers and control are as before, and
    every row is either unchanged or the same row set to processing for
    the calling worker; it changes no command, attempts count, retry
    limit, priority, result or schedule. *)
Theorem acquire_job_frame (w : string) (now : timestamp) (s : store) :
  let s' := snd (acquire_job w now s) in
  config s' = config s ∧ workers s' = workers s ∧ control s' = control s
  ∧ Forall2 (λ before after, after = before ∨ after = set_processing w now before)
      (jobs s) (jobs s').
Proof.
  assert (∀ tbl, Forall2 (λ before after : job, after = before
                                          ∨ after = set_processing w now before)
                   tbl tbl) as Hsame.
  { intros tbl. apply Forall_Forall2_diag, Forall_forall. intros x _. by left. }
  cbn zeta. rewrite acquire_job_eq.
  destruct (select_claimable now (jobs s)) as [row|]; [|by repeat split].
  cbn zeta. destruct (negb _); [by repeat split|].
  assert (Forall2 (λ before after : job, after = before
                                   ∨ after = set_processing w now before)
            (jobs s)
            (sql_update (claim_guard (id row)) (set_processing w now) (jobs s))) as Hupd.
  { unfold sql_update. apply Forall2_fmap_r, Forall_Forall2_diag, Forall_forall.
    intros x _. simpl. destruct (claim_guard (id row) x); [by right|by left]. }
  by destruct (fetch_by_id _ _).
Qed.


(** ** What [run_job] leaves behind *)

Lemma complete_cases j b r env s :
  (∃ e, complete j b r env s = (Raise e, s))
  ∨ (∃ f, (∀ x, ends_attempt x (f x))
          ∧ complete j b r env s
            = (Return tt, with_jobs (sql_update (has_id (id j)) f) s)).
Proof.
  unfold complete, bind_ints, bind, get, modify, lift, ret, raise.
  destruct (res_rc r =? 0).
  - destruct (forallb is_int64 _); [|left; by eexists]. right.
    exists (set_completed r (elapsed_ms env) (clock_done env)).
    split; [|done]. intros x. unfold ends_attempt. simpl. tauto.
  - destruct (fetch_by_id (id j) (jobs s)) as [cur|]; [|left; by eexists].
    destruct (max_retries cur <? attempts cur + 1).
    + destruct (forallb is_int64 _); [|left; by eexists]. right.
      exists (set_dead (attempts cur + 1) r (elapsed_ms env) (clock_done env)).
      split; [|done]. intros x. unfold ends_attempt. simpl. tauto.
    + destruct (datetime_add_seconds _ _) as [next_run|e]; [|left; by eexists].
      destruct (forallb is_int64 _); [|left; by eexists]. right.
      exists (set_failed (attempts cur + 1) r (elapsed_ms env) next_run
                (clock_done env)).
      split; [|done]. intros x. unfold ends_attempt. simpl. tauto.
Qed.

Lemma run_job_eq w j env s :
  let busy := with_workers (alter (set_busy (id j) (clock_start env)) w) s in
  run_job w j env s
  = match config s !! "backoff_base" with
    | None => (Raise (KeyError "backoff_base"), busy)
    | Some base_text =>
        match py_int_of_string base_text with
        | Raise e => (Raise e, busy)
        | Return b =>
            match config s !! "job_timeout_sec" with
            | None => (Raise (KeyError "job_timeout_sec"), busy)
            | Some timeout_text =>
                match py_int_of_string timeout_text with
                | Raise e => (Raise e, busy)
                | Return t =>
                    match execute (command j) t (child env) with
                    | Raise e => (Raise e, busy)
                    | Return r =>
                        match complete j b r env busy with
                        | (Return _, s2) =>
                            (Return tt,
                             with_workers (alter (set_idle (clock_idle env)) w) s2)
                        | (Raise e, s2) => (Raise e, s2)
                        end
                    end
                end
            end
        end
    end.
Proof.
  cbn zeta. unfold run_job, get_config.
  unfold bind at 1. unfold modify at 1.
  unfold bind at 1. unfold bind at 1. unfold get at 1.
  cbn [config with_workers].
  destruct (config s !! "backoff_base") as [base_text|]; [|done].
  unfold ret at 1. unfold bind at 1. unfold lift at 1.
  destruct (py_int_of_string base_text) as [b|e]; [|done].
  unfold bind at 1. unfold bind at 1. unfold get at 1.
  cbn [config with_workers].
  destruct (config s !! "job_timeout_sec") as [timeout_text|]; [|done].
  unfold ret at 1. unfold bind at 1. unfold lift at 1.
  destruct (py_int_of_string timeout_text) as [t|e]; [|done].
  unfold bind at 1. unfold lift at 1.
  destruct (execute (command j) t (child env)) as [r|e]; [|done].
  unfold bind at 1.
  by destruct (complete j b r env _) as [[[]|e] s2].
Qed.

Lemma run_job_cases w j env s :
  let busy := with_workers (alter (set_busy (id j) (clock_start env)) w) s in
  (∃ e, run_job w j env s = (Raise e, busy))
  ∨ (∃ f, (∀ x, ends_attempt x (f x))
          ∧ run_job w j env s
            = (Return tt,
               with_workers (alter (set_idle (clock_idle env)) w)
                 (with_jobs (sql_update (has_id (id j)) f) busy))).
Proof.
  cbn zeta. rewrite run_job_eq. cbn zeta.
  destruct (config s !! "backoff_base") as [base_text|]; [|left; by eexists].
  destruct (py_int_of_string base_text) as [b|e]; [|left; by eexists].
  destruct (config s !! "job_timeout_sec") as [timeout_text|]; [|left; by eexists].
  destruct (py_int_of_string timeout_text) as [t|e]; [|left; by eexists].
  destruct (execute (command j) t (child env)) as [r|e]; [|left; by eexists].
  destruct (complete_cases j b r env
              (with_workers (alter (set_busy (id j) (clock_start env)) w) s))
    as [[e ->]|(f & Hf & ->)].
  - left. by eexists.
  - right. exists f. by split.
Qed.

(** X9.  However [run_job] raises (a missing or non-numeric
    configuration value, a fault of the process layer, a retry instant
    out of range), the attempt leaves no trace in the jobs table, the
    job stays as it was claimed, and the worker's row, when there is
    one, is left busy on that job; configuration and control are
    untouched. *)
Theorem run_job_raising_records_nothing
    (w : string) (j : job) (env : attempt_env) (s s' : store) (e : exn) :
  run_job w j env s = (Raise e, s') →
  jobs s' = jobs s ∧ config s' = config s ∧ control s' = control s
  ∧ workers s' !! w
    = (λ r, mkWorker (started_at r) (clock_start env) Busy (id j)) <$> workers s !! w
  ∧ ∀ other, other ≠ w → workers s' !! other = workers s !! other.
Proof.
  intros Hrun.
  destruct (run_job_cases w j env s) as [[e' Heq]|(f & _ & Heq)];
    rewrite Heq in Hrun; [|done].
  injection Hrun as _ <-. cbn [jobs config control workers with_workers].
  split; [done|]. split; [done|]. split; [done|]. split.
  - by rewrite lookup_alter_eq.
  - intros other Hne. by rewrite lookup_alter_ne.
Qed.

Lemma run_job_raising_records_nothing_witness :
  jobs (snd (run_job "w1" (sample_job (Some "job1") Processing 0 3 0)
               (sample_env (Faulted (OtherError "OSError")))
               (sample_store [sample_job (Some "job1") Processing 0 3 0])))
  = [sample_job (Some "job1") Processing 0 3 0].
Proof.
  exact (proj1 (run_job_raising_records_nothing "w1"
                  (sample_job (Some "job1") Processing 0 3 0)
                  (sample_env (Faulted (OtherError "OSError")))
                  (sample_store [sample_job (Some "job1") Processing 0 3 0])
                  _ (OtherError "OSError") eq_refl)).
Defined.

(** X10.  When [run_job] returns, the attempt is over: every row with
    the job's id is completed, failed or dead with both lock fields NULL
    and the same id, command, retry limit, priority and creation time;
    every other row is as it was; the worker's row, when there is one,
    is idle with no current job; configuration and control are
    untouched. *)
Theorem run_job_returning_ends_attempt
    (w : string) (j : job) (env : attempt_env) (s s' : store) :
  run_job w j env s = (Return tt, s') →
  Forall2 (λ old new, if has_id (id j) old then ends_attempt old new else new = old)
    (jobs s) (jobs s')
  ∧ config s' = config s ∧ control s' = control s
  ∧ workers s' !! w
    = (λ r, mkWorker (started_at r) (clock_idle env) Idle None) <$> workers s !! w
  ∧ ∀ other, other ≠ w → workers s' !! other = workers s !! other.
Proof.
  intros Hrun.
  destruct (run_job_cases w j env s) as [[e' Heq]|(f & Hf & Heq)];
    rewrite Heq in Hrun; [done|].
  injection Hrun as <-. cbn [jobs config control workers with_workers with_jobs].
  split.
  { unfold sql_update. apply Forall2_fmap_r, Forall_Forall2_diag, Forall_forall.
    intros x _. simpl. destruct (has_id (id j) x); [apply Hf|done]. }
  split; [done|]. split; [done|]. split.
  - rewrite !lookup_alter_eq. by destruct (workers s !! w).
  - intros other Hne. by rewrite !lookup_alter_ne.
Qed.

Lemma run_job_returning_ends_attempt_witness :
  Forall2 (λ old new, if has_id (Some "job1") old then ends_attempt old new
                      else new = old)
    [sample_job (Some "job1") Processing 0 3 0; sample_job (Some "job2") Pending 0 3 0]
    (jobs (snd (run_job "w1" (sample_job (Some "job1") Processing 0 3 0)
                  (sample_env (Exited 0 "" ""))
                  (sample_store [sample_job (Some "job1") Processing 0 3 0;
                                 sample_job (Some "job2") Pending 0 3 0])))).
Proof.
  exact (proj1 (run_job_returning_ends_attempt "w1"
                  (sample_job (Some "job1") Processing 0 3 0)
                  (sample_env (Exited 0 "" ""))
                  (sample_store [sample_job (Some "job1") Processing 0 3 0;
                                 sample_job (Some "job2") Pending 0 3 0])
                  _ eq_refl)).
Defined.


(** ** Requeue and retries *)

Lemma dlq_retry_eq job_id now s :
  dlq_retry job_id now s
  = let s1 := snd (ensure_db s) in
    match List.find (λ j, has_id (Some job_id) j && is_dead (state j)) (jobs s) with
    | Some _ =>
        (Return tt,
         with_jobs (sql_update (has_id (Some job_id)) (set_requeued now)) s1)
    | None => (Raise (SystemExit 1), s1)
    end.
Proof.
  unfold dlq_retry. unfold bind at 1. rewrite ensure_db_eq. cbn zeta. cbn [snd].
  unfold bind, get. cbn [jobs]. by destruct (List.find _ _).
Qed.

(** X11.  A requeued job can be claimed at once and is requeued only
    once: after [dlq_retry] has succeeded, the job's row is due at every
    time, it still has its command, retry limit, priority, creation time
    and the result of its last attempt, and a second [dlq_retry] of the
    same id exits with status 1 and changes no row. *)
Theorem requeued_job_is_due_and_not_requeued_twice
    (job_id : string) (now later : timestamp) (s s1 : store) (j : job) :
  unique_ids (jobs s) →
  fetch_by_id (Some job_id) (jobs s) = Some j →
  dlq_retry job_id now s = (Return tt, s1) →
  ∃ j1, fetch_by_id (Some job_id) (jobs s1) = Some j1
    ∧ (∀ t, eligible t j1 = true)
    ∧ command j1 = command j ∧ max_retries j1 = max_retries j
    ∧ priority j1 = priority j ∧ created_at j1 = created_at j
    ∧ return_code j1 = return_code j ∧ stdout j1 = stdout j ∧ stderr j1 = stderr j
    ∧ fst (dlq_retry job_id later s1) = Raise (SystemExit 1)
    ∧ jobs (snd (dlq_retry job_id later s1)) = jobs s1.
Proof.
  intros Hu Hq Hrun. rewrite dlq_retry_eq in Hrun. cbn zeta in Hrun.
  destruct (List.find _ (jobs s)) as [d|] eqn:Hfind; [|done].
  injection Hrun as <-.
  set (tbl1 := sql_update (has_id (Some job_id)) (set_requeued now) (jobs s)).
  assert (fetch_by_id (Some job_id) tbl1 = Some (set_requeued now j)) as Hq1
    by by apply fetch_after_update.
  exists (set_requeued now j).
  cbn [jobs with_jobs with_control with_config snd]. fold tbl1.
  split; [done|]. split; [done|]. do 7 (split; [done|]).
  rewrite dlq_retry_eq. cbn zeta.
  cbn [jobs with_jobs with_control with_config snd fst]. fold tbl1.
  assert (unique_ids tbl1) as Hu1 by by apply unique_ids_update.
  rewrite (find_dead_unique tbl1 job_id Hu1), Hq1. by cbn.
Qed.

Lemma requeued_job_is_due_and_not_requeued_twice_witness :
  ∃ j1, fetch_by_id (Some "job1")
          (jobs (snd (dlq_retry "job1" T1
                        (sample_store [sample_job (Some "job1") Dead 4 3 0]))))
        = Some j1
    ∧ eligible T0 j1 = true.
Proof.
  destruct (requeued_job_is_due_and_not_requeued_twice "job1" T1 T1
              (sample_store [sample_job (Some "job1") Dead 4 3 0]) _
              (sample_job (Some "job1") Dead 4 3 0)
              (NoDup_singleton _) eq_refl eq_refl)
    as (j1 & Hq & Hdue & _).
  exists j1. split; [exact Hq|apply Hdue].
Defined.

(** ** The worker loop *)

Lemma worker_tick_eq w e s :
  worker_tick w e s
  = match control s !! "shutdown" with
    | None => (Raise TypeError, s)
    | Some flag =>
        if is_stopping (match workers s !! w with
                        | Some r => status r
                        | None => Stopped
                        end) || String.eqb flag "1"
        then (Return Break,
              with_workers (alter (set_status Stopped (clock_poll e)) w) s)
        else
          match acquire_job w (clock_claim e)
                  (with_workers (alter (set_status Idle (clock_poll e)) w) s) with
          | (Return None, s2) => (Return Continue, s2)
          | (Return (Some j), s2) =>
              match run_job w j (attempt e) s2 with
              | (Return _, s3) => (Return Continue, s3)
              | (Raise x, s3) => (Raise x, s3)
              end
          | (Raise x, s2) => (Raise x, s2)
          end
    end.
Proof.
  unfold worker_tick. unfold bind at 1. unfold get at 1.
  destruct (control s !! "shutdown") as [flag|]; [|done].
  destruct (_ || _); [done|].
  unfold bind at 1. unfold modify at 1. unfold bind at 1.
  destruct (acquire_job _ _ _) as [[[j|]|x] s2]; try done.
  all: unfold bind, ret; by destruct (run_job _ _ _ _) as [[[]|x] s3].
Qed.

Lemma stop_workers_eq s :
  stop_workers s
  = (Return tt, with_control (update_value "shutdown" "1") (snd (ensure_db s))).
Proof. unfold stop_workers. unfold bind. by rewrite ensure_db_eq. Qed.

(** X13.  After [stop_workers], a worker that comes to the head of its
    loop leaves it at once: it writes "stopped" into its row, when it
    has one, and claims nothing; the jobs table is as the stop request
    found it, whatever could have been claimed. *)
Theorem stop_request_ends_the_loop
    (w : string) (e : tick_env) (rest : list tick_env) (s : store) :
  ∃ s', (stop_workers;; poll_loop w (e :: rest)) s = (Return Break, s')
    ∧ jobs s' = jobs s
    ∧ control s' !! "shutdown" = Some "1"
    ∧ workers s' !! w
      = (λ r, mkWorker (started_at r) (clock_poll e) Stopped (current_job_id r))
          <$> workers s !! w
    ∧ ∀ other, other ≠ w → workers s' !! other = workers s !! other.
Proof.
  eexists. unfold bind at 1. rewrite stop_workers_eq.
  set (s1 := with_control _ _).
  assert (control s1 !! "shutdown" = Some "1") as Hflag.
  { unfold s1, update_value. rewrite ensure_db_eq. cbn [control with_control snd].
    rewrite lookup_alter_eq, insert_or_ignore_lookup. by case_decide. }
  cbn [poll_loop]. unfold bind at 1. rewrite worker_tick_eq, Hflag.
  rewrite orb_true_r. split; [reflexivity|].
  unfold s1. rewrite ensure_db_eq. cbn [jobs workers control with_workers with_control snd].
  split; [done|]. split.
  { fold (update_value "shutdown" "1" (insert_or_ignore "shutdown" "0" (control s))).
    unfold update_value. rewrite lookup_alter_eq, insert_or_ignore_lookup.
    by case_decide. }
  split.
  - by rewrite lookup_alter_eq.
  - intros other Hne. by rewrite lookup_alter_ne.
Qed.



Lemma worker_tick_holds_nothing w e s r s' :
  ¬ holds w (jobs s) → worker_tick w e s = (Return r, s') → ¬ holds w (jobs s').
Proof.
  intros Hfree Hrun. rewrite worker_tick_eq in Hrun.
  destruct (control s !! "shutdown") as [flag|]; [|done].
  destruct (_ || _); [by injection Hrun as _ <-|].
  rewrite acquire_job_eq in Hrun. cbn [jobs with_workers] in Hrun.
  destruct (select_claimable (clock_claim e) (jobs s)) as [row|];
    [|by injection Hrun as _ <-].
  cbn zeta in Hrun. destruct (negb _); [by injection Hrun as _ <-|].
  set (tbl2 := sql_update (claim_guard (id row))
                 (set_processing w (clock_claim e)) (jobs s)) in *.
  destruct (fetch_by_id (id row) tbl2) as [j|] eqn:Hq; [|done].
  apply fetch_by_id_Some in Hq as (_ & k & Hk & Hrow).
  match type of Hrun with
  | context [run_job w j (attempt e) ?s2] =>
      destruct (run_job_cases w j (attempt e) s2) as [[x Heq]|(f & Hf & Heq)];
        rewrite Heq in Hrun; [done|]
  end.
  injection Hrun as _ <-. cbn [jobs with_workers with_jobs].
  intros (x3 & Hin3 & Hst3 & Hby3).
  unfold sql_update in Hin3. apply list_elem_of_fmap in Hin3 as (x2 & -> & Hin2).
  destruct (has_id (id j) x2) eqn:Hid2.
  { destruct (Hf x2) as (_ & _ & _ & _ & _ & Hend & _).
    rewrite Hst3 in Hend. by destruct Hend as [|[|]]. }
  unfold tbl2, sql_update in Hin2. apply list_elem_of_fmap in Hin2 as (x & -> & Hin).
  destruct (claim_guard (id row) x) eqn:Hg.
  - unfold claim_guard in Hg. apply andb_true_iff in Hg as [Hg _].
    unfold has_id in Hid2. rewrite set_processing_id, Hk in Hid2.
    rewrite Hrow in Hg. congruence.
  - apply Hfree. by exists x.
Qed.

(** X15.  A worker that has not crashed holds no job between
    iterations: if it held none when [worker_loop] started and the loop
    has run so far without raising, whether it has ended or is still
    polling, then no row is in processing under the worker's lock; every
    job it has claimed on the way has been completed, rescheduled or
    dead-lettered. *)
Theorem worker_loop_holds_nothing
    (w : string) (started seen : timestamp) (envs : list tick_env)
    (s s' : store) (r : tick_result) :
  ¬ holds w (jobs s) →
  worker_loop w started seen envs s = (Return r, s') →
  ¬ holds w (jobs s').
Proof.
  intros Hfree Hrun. unfold worker_loop in Hrun.
  unfold bind at 1 in Hrun. rewrite ensure_db_eq in Hrun.
  unfold bind at 1, modify at 1 in Hrun.
  match type of Hrun with
  | poll_loop w envs ?s0 = _ => assert (¬ holds w (jobs s0)) as Hfree0 by done;
                                 revert Hfree0 Hrun; generalize s0
  end.
  clear Hfree. induction envs as [|e envs IH]; intros s0 Hfree Hrun.
  - by injection Hrun as _ <-.
  - cbn [poll_loop] in Hrun. unfold bind at 1 in Hrun.
    destruct (worker_tick w e s0) as [[[]|x] s1] eqn:Htick; [| |done].
    + apply (IH s1); [|done]. by eapply worker_tick_holds_nothing.
    + injection Hrun as _ <-. by eapply worker_tick_holds_nothing.
Qed.

Lemma worker_loop_holds_nothing_witness :
  ¬ holds "w1"
      (jobs (snd (worker_loop "w1" T0 T0 [mkTick T1 T1 (sample_env (Exited 1 "" ""))]
                    (sample_store [sample_job (Some "job1") Pending 0 3 0])))).
Proof.
  apply (worker_loop_holds_nothing "w1" T0 T0
           [mkTick T1 T1 (sample_env (Exited 1 "" ""))]
           (sample_store [sample_job (Some "job1") Pending 0 3 0]) _ Continue).
  - intros (j & Hin & Hst & _). apply list_elem_of_singleton in Hin. by subst j.
  - reflexivity.
Defined.

(** ** Queries *)

Lemma by_created_at_total : Total by_created_at.
Proof. intros a b. unfold by_created_at. lia. Qed.

Lemma by_updated_at_desc_total : Total by_updated_at_desc.
Proof. intros a b. unfold by_updated_at_desc. lia. Qed.

Lemma by_started_at_total : Total by_started_at.
Proof. intros a b. unfold by_started_at. lia. Qed.

Lemma filter_sublist {A} (f : A → bool) (l : list A) : List.filter f l `sublist_of` l.
Proof.
  induction l as [|a l IH]; simpl; [constructor|].
  destruct (f a); by constructor.
Qed.

Lemma filter_all {A} (l : list A) : List.filter (λ _, true) l = l.
Proof. induction l as [|a l IH]; simpl; by rewrite ?IH. Qed.

Lemma sql_limit_sublist {A} limit (l : list A) : sql_limit limit l `sublist_of` l.
Proof. unfold sql_limit. destruct (limit <? 0); [done|apply sublist_take]. Qed.

Lemma sql_limit_all {A} limit (l : list A) :
  limit < 0 ∨ Z.of_nat (length l) ≤ limit → sql_limit limit l = l.
Proof.
  intros H. unfold sql_limit. destruct (Z.ltb_spec limit 0) as [|Hge]; [done|].
  apply take_ge. lia.
Qed.

Lemma sql_limit_length {A} limit (l : list A) :
  0 ≤ limit → Z.of_nat (length (sql_limit limit l)) ≤ limit.
Proof.
  intros H. unfold sql_limit. destruct (Z.ltb_spec limit 0) as [|Hge]; [lia|].
  rewrite length_take. lia.
Qed.

Lemma in_state_iff name j : in_state name j = true ↔ state_name (state j) = name.
Proof. unfold in_state. apply String.eqb_eq. Qed.

Lemma list_jobs_eq state_filter limit s :
  list_jobs state_filter limit s
  = let s1 := snd (ensure_db s) in
    if is_int64 limit then
      (Return (sql_limit limit
                 (merge_sort by_created_at
                    (match state_filter with
                     | Some (String c name) =>
                         List.filter (in_state (String c name)) (jobs s)
                     | _ => jobs s
                     end))), s1)
    else (Raise OverflowError, s1).
Proof.
  unfold list_jobs. unfold bind at 1. rewrite ensure_db_eq. cbn zeta. cbn [snd].
  unfold bind, bind_ints, get, ret, raise. cbn [forallb jobs].
  rewrite andb_true_r. destruct (is_int64 limit); [|done].
  by destruct state_filter as [[|c name]|].
Qed.



Lemma count_states (tbl : list job) :
  sum_list (map (λ st, length (List.filter (in_state (state_name st)) tbl)) all_states)
  = length tbl.
Proof.
  induction tbl as [|j tbl IH]; [done|].
  unfold all_states, in_state in *.
  cbn [map sum_list sum_list_with state_name] in *. unfold Datatypes.id in *.
  cbn [List.filter]. destruct (state j); cbn [state_name];
    repeat (rewrite String.eqb_refl || (rewrite (proj2 (String.eqb_neq _ _)) by done));
    cbn [length]; lia.
Qed.

(** X17.  [status] finds the shutdown flag it reads, since [ensure_db]
    has put it there, and reads only.  It reports the five states in the order
    pending, processing, completed, failed, dead, each with the number of
    rows in that state; the five numbers add up to the number of rows of
    the table, so every job is counted once.  The workers are all there,
    once each, in the order in which they started, and the flag is the
    one the control table holds ("0" when it held none). *)
Theorem status_counts_every_job (s : store) :
  ∃ rep,
    status_cmd s = (Return rep, snd (ensure_db s))
    ∧ fst <$> report_jobs rep = ["pending"; "processing"; "completed"; "failed"; "dead"]
    ∧ (∀ st n, (state_name st, n) ∈ report_jobs rep →
         n = length (List.filter (λ j, bool_decide (state j = st)) (jobs s)))
    ∧ sum_list (snd <$> report_jobs rep) = length (jobs s)
    ∧ report_workers rep ≡ₚ map_to_list (workers s)
    ∧ Sorted by_started_at (report_workers rep)
    ∧ report_shutdown rep = default "0" (control s !! "shutdown").
Proof.
  unfold status_cmd. unfold bind at 1. rewrite ensure_db_eq. cbn [snd].
  unfold bind, get. cbn [jobs workers control].
  rewrite insert_or_ignore_lookup. rewrite decide_True by done.
  eexists. split; [reflexivity|]. cbn [report_jobs report_workers report_shutdown].
  split; [done|]. split.
  { intros st n Hin.
    assert (∀ st' j, in_state (state_name st') j = bool_decide (state j = st')) as Heq.
    { intros st' j. unfold in_state. by destruct (state j), st'. }
    unfold all_states in Hin. cbn [map] in Hin.
    repeat (apply elem_of_cons in Hin as [Hin|Hin];
            [injection Hin as Hn ->; destruct st; try discriminate Hn;
             f_equal; apply filter_ext; intros j;
             match goal with |- _ = bool_decide (_ = ?st') => exact (Heq st' j) end|]).
    by apply elem_of_nil in Hin. }
  split.
  { rewrite <- (count_states (jobs s)). reflexivity. }
  split; [apply merge_sort_Permutation|].
  split; [apply Sorted_merge_sort, by_started_at_total|done].
Qed.

Lemma dlq_list_eq limit s :
  dlq_list limit s
  = let s1 := snd (ensure_db s) in
    if is_int64 limit then
      (Return (sql_limit limit
                 (merge_sort by_updated_at_desc
                    (List.filter (in_state "dead") (jobs s)))), s1)
    else (Raise OverflowError, s1).
Proof.
  unfold dlq_list. unfold bind at 1. rewrite ensure_db_eq. cbn zeta. cbn [snd].
  unfold bind, bind_ints, get, ret, raise. cbn [forallb jobs].
  rewrite andb_true_r. by destruct (is_int64 limit).
Qed.

Lemma in_state_dead j : in_state "dead" j = is_dead (state j).
Proof. unfold in_state. by destruct (state j). Qed.



(** ** From submission to completion *)

Lemma spawn_workers_eq count pid hex s :
  ∃ ps, spawn_workers count pid hex s
        = (Return ps, with_control (update_value "shutdown" "0") (snd (ensure_db s))).
Proof.
  unfold spawn_workers. unfold bind at 1. rewrite ensure_db_eq. cbn [snd].
  unfold bind at 1. unfold modify at 1.
  destruct (spawn_loop_run pid hex (Z.to_nat count) 0
              (with_control (update_value "shutdown" "0")
                 (mkStore (jobs s)
                    (insert_or_ignore "job_timeout_sec" "0"
                       (insert_or_ignore "max_retries_default" "3"
                          (insert_or_ignore "backoff_base" "2" (config s))))
                    (workers s) (insert_or_ignore "shutdown" "0" (control s)))))
    as (ps & Hrun & _).
  exists ps. unfold bind. by rewrite Hrun.
Qed.

Lemma ensure_db_ret s : ensure_db s = (Return tt, snd (ensure_db s)).
Proof. reflexivity. Qed.

Lemma ensure_db_config s key :
  config (snd (ensure_db s)) !! key
  = if decide (key = "backoff_base") then Some (default "2" (config s !! key))
    else if decide (key = "max_retries_default") then Some (default "3" (config s !! key))
    else if decide (key = "job_timeout_sec") then Some (default "0" (config s !! key))
    else config s !! key.
Proof.
  rewrite ensure_db_eq. cbn [snd config]. rewrite !insert_or_ignore_lookup.
  repeat case_decide; by simplify_eq.
Qed.

Lemma ensure_db_control s :
  control (snd (ensure_db s)) !! "shutdown" = Some (default "0" (control s !! "shutdown")).
Proof.
  rewrite ensure_db_eq. cbn [snd control]. by rewrite insert_or_ignore_lookup.
Qed.



(** ** Histories *)

Lemma identity_sql_update p f tbl :
  (∀ x, identity (f x) = identity x) →
  identity <$> sql_update p f tbl = identity <$> tbl.
Proof.
  intros Hf. unfold sql_update. induction tbl as [|a tbl IH]; [done|].
  cbn [map fmap list_fmap] in *. rewrite IH. f_equal.
  by destruct (p a).
Qed.

Lemma ends_attempt_identity x y : ends_attempt x y → identity y = identity x.
Proof.
  intros (Hid & Hc & Hm & Hp & Hcr & _). unfold identity. congruence.
Qed.

Lemma unique_ids_identity tbl tbl' :
  identity <$> tbl' = identity <$> tbl → unique_ids tbl → unique_ids tbl'.
Proof.
  intros Heq. unfold unique_ids.
  assert (∀ l : list job,
            omap id l = omap (λ x : option string * string * Z * Z * timestamp, x.1.1.1.1)
                          (identity <$> l)) as Hom.
  { induction l as [|a l IH]; [done|]. rewrite fmap_cons. cbn [omap list_omap] in *.
    rewrite IH. done. }
  by rewrite (Hom tbl), (Hom tbl'), Heq.
Qed.

Lemma keeps_jobs_same s s' :
  identity <$> jobs s' = identity <$> jobs s → keeps_jobs s s'.
Proof.
  intros H. split; [by rewrite H|]. by apply unique_ids_identity.
Qed.

Lemma keeps_jobs_trans s1 s2 s3 : keeps_jobs s1 s2 → keeps_jobs s2 s3 → keeps_jobs s1 s3.
Proof. intros [H1 U1] [H2 U2]. split; [by etrans|auto]. Qed.

Lemma acquire_job_keeps w now s : keeps_jobs s (snd (acquire_job w now s)).
Proof.
  apply keeps_jobs_same. rewrite acquire_job_eq.
  destruct (select_claimable now (jobs s)) as [row|]; [|done]. cbn zeta.
  destruct (negb _); [done|].
  destruct (fetch_by_id _ _); cbn [snd jobs with_jobs];
    by apply identity_sql_update.
Qed.

Lemma run_job_keeps w j env s : keeps_jobs s (snd (run_job w j env s)).
Proof.
  apply keeps_jobs_same.
  destruct (run_job_cases w j env s) as [[e ->]|(f & Hf & ->)]; [done|].
  cbn [snd jobs with_jobs with_workers]. apply identity_sql_update.
  intros x. apply ends_attempt_identity, Hf.
Qed.

Lemma worker_tick_keeps w e s : keeps_jobs s (snd (worker_tick w e s)).
Proof.
  rewrite worker_tick_eq. destruct (control s !! "shutdown") as [flag|];
    [|by apply keeps_jobs_same].
  destruct (_ || _); [by apply keeps_jobs_same|].
  set (s1 := with_workers _ s).
  pose proof (acquire_job_keeps w (clock_claim e) s1) as Ha.
  destruct (acquire_job w (clock_claim e) s1) as [[[j|]|x] s2]; try exact Ha.
  pose proof (run_job_keeps w j (attempt e) s2) as Hr.
  eapply keeps_jobs_trans; [exact Ha|].
  by destruct (run_job w j (attempt e) s2) as [[[]|x] s3].
Qed.

Lemma poll_loop_keeps w envs : ∀ s, keeps_jobs s (snd (poll_loop w envs s)).
Proof.
  induction envs as [|e envs IH]; intros s; [by apply keeps_jobs_same|].
  cbn [poll_loop]. unfold bind.
  pose proof (worker_tick_keeps w e s) as Ht.
  destruct (worker_tick w e s) as [[[]|x] s1]; try exact Ht.
  eapply keeps_jobs_trans; [exact Ht|apply IH].
Qed.

Lemma after_keeps c s : keeps_jobs s (after c s).
Proof.
  destruct c; cbn [after].
  - rewrite enqueue_job_eq. cbn zeta.
    destruct (req_command req) as [cmd|]; [|by apply keeps_jobs_same].
    destruct (forallb is_int64 _); [|by apply keeps_jobs_same].
    destruct (state_of_name _) as [st|]; [|by apply keeps_jobs_same].
    destruct (existsb _ (jobs s)) eqn:Hex; [by apply keeps_jobs_same|].
    rewrite ensure_db_eq. split; cbn [snd jobs with_jobs].
    + rewrite fmap_app. by apply prefix_app_r.
    + intros Hu. by apply unique_ids_insert.
  - destruct (spawn_workers_eq count pid hex s) as (ps & ->). by apply keeps_jobs_same.
  - rewrite stop_workers_eq. by apply keeps_jobs_same.
  - apply keeps_jobs_same. unfold status_cmd. unfold bind at 1.
    rewrite ensure_db_eq. unfold bind, get. by destruct (_ !! _).
  - rewrite list_jobs_eq. cbn zeta. apply keeps_jobs_same. by destruct (is_int64 _).
  - rewrite dlq_list_eq. cbn zeta. apply keeps_jobs_same. by destruct (is_int64 _).
  - rewrite dlq_retry_eq. cbn zeta. apply keeps_jobs_same.
    destruct (List.find _ _); [|done].
    cbn [snd jobs with_jobs]. rewrite ensure_db_eq. cbn [snd jobs].
    by apply identity_sql_update.
  - by apply keeps_jobs_same.
  - apply keeps_jobs_same. unfold config_get. unfold bind at 1.
    rewrite ensure_db_eq. destruct key as [[|c k]|]; try done.
    unfold get_config, bind, get. by destruct (_ !! _).
  - unfold worker_loop. unfold bind at 1. rewrite ensure_db_eq.
    unfold bind at 1. unfold modify at 1.
    eapply keeps_jobs_trans; [|apply poll_loop_keeps]. by apply keeps_jobs_same.
  - apply acquire_job_keeps.
  - apply run_job_keeps.
  - by apply keeps_jobs_same.
Qed.

(** X20.  No call deletes a job or rewrites what identifies it.  Through
    every history of calls (the commands of the CLI and the steps of
    workers, in any order, with any arguments, returning or raising) a
    row of the jobs table stays where it is with its id, command,
    max_retries, priority and created_at; rows are only added after the
    last one; and no two rows get the same id. *)
Theorem jobs_are_never_deleted_or_rewritten (cs : list call) (s : store) :
  identity <$> jobs s `prefix_of` identity <$> jobs (history cs s)
  ∧ (unique_ids (jobs s) → unique_ids (jobs (history cs s))).
Proof.
  change (keeps_jobs s (history cs s)). revert s.
  induction cs as [|c cs IH]; intros s; [by apply keeps_jobs_same|].
  unfold history. cbn [foldl].
  eapply keeps_jobs_trans; [apply after_keeps|apply IH].
Qed.

Lemma jobs_are_never_deleted_or_rewritten_witness :
  unique_ids
    (jobs (history
             [Call_enqueue (mkRequest (Some (Some "job2")) (Some "exit 1")
                              None None None None None) 0 T0 "0f8fad5b";
              Call_worker_loop "w1" T0 T0 [mkTick T1 T1 (sample_env (Exited 1 "" ""))];
              Call_dlq_retry "job1" T1]
             (sample_store [sample_job (Some "job1") Dead 4 3 0]))).
Proof.
  apply (jobs_are_never_deleted_or_rewritten
           [Call_enqueue (mkRequest (Some (Some "job2")) (Some "exit 1")
                            None None None None None) 0 T0 "0f8fad5b";
            Call_worker_loop "w1" T0 T0 [mkTick T1 T1 (sample_env (Exited 1 "" ""))];
            Call_dlq_retry "job1" T1]
           (sample_store [sample_job (Some "job1") Dead 4 3 0])).
  apply NoDup_singleton.
Defined.

(** ** The delay before a retry *)

(** X21.  A failed attempt that leaves retries makes the job wait: when
    [run_job] returns after a command that exited with another code than
    0, the job's row is failed with one more attempt counted, and it can
    be claimed from the instant [clock + base ^ attempts] seconds on and
    not before, so no claim made before that instant returns it.  With a
    base of 1 or more the wait is a second at least; with the base 0
    there is no wait. *)
Theorem failed_job_waits_for_its_delay
    (w : string) (j cur : job) (env : attempt_env) (s s' : store)
    (base_text : string) (b rc : Z) (out err : string) :
  unique_ids (jobs s) →
  fetch_by_id (id j) (jobs s) = Some cur →
  config s !! "backoff_base" = Some base_text →
  py_int_of_string base_text = Return b →
  child env = Exited rc out err → rc ≠ 0 →
  attempts cur + 1 ≤ max_retries cur →
  run_job w j env s = (Return tt, s') →
  let due_at := clock_retry env + b ^ Z.max (attempts cur + 1) 0 * US_PER_SECOND in
  ∃ row,
    fetch_by_id (id j) (jobs s') = Some row
    ∧ state row = Failed ∧ attempts row = attempts cur + 1
    ∧ (∀ now, eligible now row = true ↔ due_at ≤ now)
    ∧ (∀ w' now got s'', now < due_at →
         acquire_job w' now s' = (Return (Some got), s'') → id got ≠ id j)
    ∧ (1 ≤ b → clock_retry env + US_PER_SECOND ≤ due_at)
    ∧ (b = 0 → 0 ≤ attempts cur → due_at = clock_retry env).
Proof.
  intros Hu Hcur Hb Hbv Hchild Hrc Hle Hrun due_at.
  rewrite run_job_eq in Hrun. cbn zeta in Hrun. rewrite Hb, Hbv in Hrun.
  destruct (config s !! "job_timeout_sec") as [timeout_text|]; [|done].
  destruct (py_int_of_string timeout_text) as [t|]; [|done].
  unfold execute, subprocess_run in Hrun. rewrite Hchild in Hrun.
  destruct (has_nul (command j)); [done|].
  set (busy := with_workers _ s) in Hrun.
  set (r := mkResult rc out err) in Hrun.
  assert (fetch_by_id (id j) (jobs busy) = Some cur) as Hcur' by done.
  destruct (datetime_add_seconds_cases (clock_retry env)
              (b ^ Z.max (attempts cur + 1) 0)) as [Hadd|Hadd].
  2:{ by rewrite (complete_overflow j b r env busy cur Hcur' Hrc Hle Hadd) in Hrun. }
  destruct (forallb is_int64 [attempts cur + 1; res_rc r; elapsed_ms env]) eqn:Hint.
  2:{ unfold complete in Hrun. destruct (Z.eqb_spec (res_rc r) 0); [done|].
      unfold bind at 1 in Hrun. unfold get at 1 in Hrun. rewrite Hcur' in Hrun.
      destruct (Z.ltb_spec (max_retries cur) (attempts cur + 1)); [lia|].
      rewrite compute_backoff_int in Hrun. unfold bind at 1, lift at 1 in Hrun.
      rewrite Hadd in Hrun. unfold bind, bind_ints in Hrun.
      by rewrite Hint in Hrun. }
  rewrite (complete_failed j b r env busy cur Hcur' Hrc _ Hle Hadd Hint) in Hrun.
  injection Hrun as <-. fold due_at.
  set (f := set_failed (attempts cur + 1) r (elapsed_ms env) due_at (clock_done env)).
  cbn [jobs with_jobs with_workers].
  assert (jobs busy = jobs s) as -> by done.
  assert (fetch_by_id (id j) (sql_update (has_id (id j)) f (jobs s)) = Some (f cur))
    as Hrow by by apply fetch_after_update.
  assert (∀ now, eligible now (f cur) = true ↔ due_at ≤ now) as Hdue.
  { intros now. unfold eligible, due. cbn. apply Z.leb_le. }
  exists (f cur). split; [done|]. split; [done|]. split; [done|].
  split; [exact Hdue|]. split.
  - intros w' now got s'' Hnow Hacq Hsame.
    set (tbl := sql_update (has_id (id j)) f (jobs s)) in *.
    assert (unique_ids tbl) as Hu' by by apply unique_ids_update.
    rewrite acquire_job_eq in Hacq. cbn [jobs with_jobs with_workers] in Hacq.
    change (jobs busy) with (jobs s) in Hacq. fold tbl in Hacq.
    destruct (select_claimable now tbl) as [sel|] eqn:Hsel; [|done].
    apply select_claimable_Some in Hsel as (Hin & Hel & _).
    cbn zeta in Hacq. destruct (negb _); [done|].
    destruct (fetch_by_id (id sel) _) as [got'|] eqn:Hgot; [|done].
    injection Hacq as -> _.
    apply fetch_by_id_Some in Hgot as (_ & k & Hk & Hsk).
    assert (has_id (id j) sel = true) as Hid.
    { unfold has_id. rewrite <- Hsame, Hk, Hsk. apply sql_eq_Some_refl. }
    rewrite <- Hsame, Hk in Hrow.
    rewrite <- Hsame, Hk in Hid.
    rewrite (has_id_unique tbl (f cur) sel k Hu' Hrow Hin Hid) in Hel.
    apply Hdue in Hel. lia.
  - split.
    + intros Hb1. unfold due_at.
      assert (1 ≤ b ^ Z.max (attempts cur + 1) 0); [|unfold US_PER_SECOND; lia].
      pose proof (Z.pow_le_mono_l 1 b (Z.max (attempts cur + 1) 0)) as Hp.
      rewrite Z.pow_1_l in Hp by lia. lia.
    + intros -> Hn. unfold due_at. rewrite Z.max_l by lia.
      rewrite Z.pow_0_l by lia. lia.
Qed.

Lemma failed_job_waits_for_its_delay_witness :
  ∃ row,
    fetch_by_id (Some "job1")
      (jobs (snd (run_job "w1" (sample_job (Some "job1") Processing 0 3 0)
                    (sample_env (Exited 1 "" ""))
                    (sample_store [sample_job (Some "job1") Processing 0 3 0]))))
    = Some row
    ∧ state row = Failed
    ∧ eligible (T1 + 2 + 2 * US_PER_SECOND) row = true.
Proof.
  destruct (failed_job_waits_for_its_delay "w1"
              (sample_job (Some "job1") Processing 0 3 0)
              (sample_job (Some "job1") Processing 0 3 0)
              (sample_env (Exited 1 "" ""))
              (sample_store [sample_job (Some "job1") Processing 0 3 0]) _
              "2" 2 1 "" ""
              (NoDup_singleton _) eq_refl eq_refl eq_refl eq_refl
              ltac:(discriminate) ltac:(simpl; lia) eq_refl)
    as (row & Hrow & Hst & _ & Hdue & _).
  exists row. split; [exact Hrow|]. split; [exact Hst|].
  apply Hdue. reflexivity.
Defined.

(** ** Locks *)

Lemma Forall_sql_update (P : job → Prop) p f tbl :
  (∀ x, x ∈ tbl → p x = true → P (f x)) → Forall P tbl → Forall P (sql_update p f tbl).
Proof.
  intros Hf Hall. unfold sql_update. apply Forall_forall. intros y Hy.
  apply list_elem_of_In, in_map_iff in Hy as (x & <- & Hx).
  apply list_elem_of_In in Hx.
  destruct (p x) eqn:Hp; [by apply Hf|].
  by apply (proj1 (Forall_forall _ _) Hall).
Qed.

Lemma find_dead_rows tbl k d :
  unique_ids tbl →
  List.find (λ j, has_id (Some k) j && is_dead (state j)) tbl = Some d →
  ∀ x, x ∈ tbl → has_id (Some k) x = true → x = d ∧ state x = Dead.
Proof.
  intros Hu Hfind x Hx Hid.
  apply find_some in Hfind as [Hin Hd]. apply andb_true_iff in Hd as [Hdk Hdead].
  apply list_elem_of_In in Hin.
  apply sql_eq_true in Hid as (k1 & Hk1 & [= <-]).
  apply sql_eq_true in Hdk as (k2 & Hk2 & [= <-]).
  assert (x = d) as -> by (eapply unique_ids_inj; eauto).
  split; [done|]. by destruct (state d).
Qed.

Lemma acquire_job_locks w now s : locks_kept s (snd (acquire_job w now s)).
Proof.
  intros _ Hall. rewrite acquire_job_eq.
  destruct (select_claimable now (jobs s)) as [row|]; [|done]. cbn zeta.
  destruct (negb _); [done|].
  destruct (fetch_by_id _ _); cbn [snd jobs with_jobs];
    (apply Forall_sql_update; [|done]); intros x _ _; by left.
Qed.

Lemma run_job_locks w j env s : locks_kept s (snd (run_job w j env s)).
Proof.
  intros _ Hall.
  destruct (run_job_cases w j env s) as [[e ->]|(f & Hf & ->)]; [done|].
  cbn [snd jobs with_jobs with_workers]. apply Forall_sql_update; [|done].
  intros x _ _. destruct (Hf x) as (_ & _ & _ & _ & _ & _ & Hby & Hat). by right.
Qed.

Lemma worker_tick_locks w e s : locks_kept s (snd (worker_tick w e s)).
Proof.
  intros Hu Hall. rewrite worker_tick_eq.
  destruct (control s !! "shutdown") as [flag|]; [|done].
  destruct (_ || _); [done|].
  set (s1 := with_workers _ s).
  pose proof (acquire_job_locks w (clock_claim e) s1 Hu Hall) as Ha.
  destruct (acquire_job_keeps w (clock_claim e) s1) as [_ Hu1].
  specialize (Hu1 Hu).
  destruct (acquire_job w (clock_claim e) s1) as [[[j|]|x] s2]; try exact Ha.
  pose proof (run_job_locks w j (attempt e) s2 Hu1 Ha) as Hr.
  by destruct (run_job w j (attempt e) s2) as [[[]|x] s3].
Qed.

Lemma poll_loop_locks w envs : ∀ s, locks_kept s (snd (poll_loop w envs s)).
Proof.
  induction envs as [|e envs IH]; intros s Hu Hall; [done|].
  cbn [poll_loop]. unfold bind.
  pose proof (worker_tick_locks w e s Hu Hall) as Ht.
  destruct (worker_tick_keeps w e s) as [_ Hu1]. specialize (Hu1 Hu).
  destruct (worker_tick w e s) as [[[]|x] s1]; try exact Ht.
  by apply IH.
Qed.

Lemma after_locks c s : locks_kept s (after c s).
Proof.
  intros Hu Hall. destruct c; cbn [after].
  - rewrite enqueue_job_eq. cbn zeta.
    destruct (req_command req) as [cmd|]; [|done].
    destruct (forallb is_int64 _); [|done].
    destruct (state_of_name _) as [st|]; [|done].
    destruct (existsb _ (jobs s)); [done|].
    rewrite ensure_db_eq. cbn [snd jobs with_jobs].
    apply Forall_app. split; [done|]. apply Forall_singleton. by right.
  - by destruct (spawn_workers_eq count pid hex s) as (ps & ->).
  - by rewrite stop_workers_eq.
  - unfold status_cmd. unfold bind at 1.
    rewrite ensure_db_eq. unfold bind, get. by destruct (_ !! _).
  - rewrite list_jobs_eq. cbn zeta. by destruct (is_int64 _).
  - rewrite dlq_list_eq. cbn zeta. by destruct (is_int64 _).
  - rewrite dlq_retry_eq. cbn zeta.
    destruct (List.find _ _) as [d|] eqn:Hfind; [|done].
    rewrite ensure_db_eq. cbn [snd jobs with_jobs].
    apply Forall_sql_update; [|done]. intros x Hx Hid.
    destruct (find_dead_rows _ _ _ Hu Hfind x Hx Hid) as [_ Hdead].
    destruct (proj1 (Forall_forall _ _) Hall x Hx) as [Hp|[Hby Hat]]; [congruence|].
    by right.
  - done.
  - unfold config_get. unfold bind at 1.
    rewrite ensure_db_eq. destruct key as [[|c k]|]; try done.
    unfold get_config, bind, get. by destruct (_ !! _).
  - unfold worker_loop. unfold bind at 1. rewrite ensure_db_eq.
    unfold bind at 1. unfold modify at 1. by apply poll_loop_locks.
  - by apply acquire_job_locks.
  - by apply run_job_locks.
  - done.
Qed.



(** ** Completed jobs *)

Lemma completed_kept_refl s s' : jobs s' = jobs s → completed_kept s s'.
Proof. intros H i x Hi _. by rewrite H. Qed.

Lemma completed_kept_update p f s s' :
  jobs s' = sql_update p f (jobs s) →
  (∀ x, x ∈ jobs s → state x = Completed → p x = false) →
  completed_kept s s'.
Proof.
  intros Heq Hp i x Hi Hst. rewrite Heq. unfold sql_update.
  change (map ?g ?l) with (g <$> l). rewrite list_lookup_fmap, Hi. cbn.
  rewrite Hp; [done| |done]. by eapply list_elem_of_lookup_2.
Qed.

Lemma acquire_job_completed w now s : completed_kept s (snd (acquire_job w now s)).
Proof.
  rewrite acquire_job_eq.
  destruct (select_claimable now (jobs s)) as [row|]; [|by apply completed_kept_refl].
  cbn zeta. destruct (negb _); [by apply completed_kept_refl|].
  destruct (fetch_by_id _ _);
    (eapply completed_kept_update; [reflexivity|]);
    intros x _ Hst; unfold claim_guard; rewrite Hst; apply andb_false_r.
Qed.

Lemma run_job_completed w j env s row :
  unique_ids (jobs s) →
  fetch_by_id (id j) (jobs s) = Some row → state row = Processing →
  completed_kept s (snd (run_job w j env s)).
Proof.
  intros Hu Hrow Hst.
  destruct (run_job_cases w j env s) as [[e ->]|(f & Hf & ->)];
    [by apply completed_kept_refl|].
  eapply completed_kept_update; [reflexivity|].
  intros x Hx Hc. destruct (has_id (id j) x) eqn:Hid; [|done].
  pose proof (fetch_by_id_Some _ _ _ Hrow) as (_ & k & _ & Hk).
  rewrite Hk in Hid, Hrow.
  rewrite (has_id_unique _ _ _ _ Hu Hrow Hx Hid) in Hc. congruence.
Qed.

(** The job [acquire_job] hands out is processing in the store it leaves. *)
Lemma acquire_job_handed w now s j s' :
  unique_ids (jobs s) → acquire_job w now s = (Return (Some j), s') →
  fetch_by_id (id j) (jobs s') = Some j ∧ state j = Processing.
Proof.
  intros Hu Hacq. rewrite acquire_job_eq in Hacq.
  destruct (select_claimable now (jobs s)) as [sel|]; [|done]. cbn zeta in Hacq.
  destruct (negb _) eqn:Hcount; [done|].
  apply negb_false_iff, Nat.eqb_eq in Hcount.
  destruct (rowcount_one_fetch _ _ Hu Hcount) as (k & j0 & Hsel & Hj0 & Hcl).
  rewrite Hsel in Hacq.
  rewrite fetch_sql_update, Hj0 in Hacq by done. cbn in Hacq.
  pose proof (fetch_by_id_Some _ _ _ Hj0) as (_ & k' & Hk' & [= <-]).
  assert (claim_guard (Some k) j0 = true) as Hg.
  { unfold claim_guard. by rewrite Hk', sql_eq_Some_refl, Hcl. }
  rewrite Hg in Hacq. injection Hacq as <- <-.
  cbn [jobs with_jobs]. rewrite set_processing_id, Hk'.
  rewrite fetch_sql_update, Hj0 by done. cbn. by rewrite Hg.
Qed.

Lemma worker_tick_completed w e s :
  unique_ids (jobs s) → completed_kept s (snd (worker_tick w e s)).
Proof.
  intros Hu. rewrite worker_tick_eq.
  destruct (control s !! "shutdown") as [flag|]; [|by apply completed_kept_refl].
  destruct (_ || _); [by apply completed_kept_refl|].
  set (s1 := with_workers _ s).
  pose proof (acquire_job_completed w (clock_claim e) s1) as Ha.
  destruct (acquire_job w (clock_claim e) s1) as [[[j|]|x] s2] eqn:Hacq; try exact Ha.
  destruct (acquire_job_handed w (clock_claim e) s1 j s2 Hu Hacq) as [Hrow Hst].
  destruct (acquire_job_keeps w (clock_claim e) s1) as [_ Hu2].
  rewrite Hacq in Hu2. specialize (Hu2 Hu).
  pose proof (run_job_completed w j (attempt e) s2 j Hu2 Hrow Hst) as Hr.
  assert (completed_kept s (snd (run_job w j (attempt e) s2))) as Hk.
  { intros i x Hi Hc. apply Hr; [|done]. by apply Ha. }
  by destruct (run_job w j (attempt e) s2) as [[[]|x] s3].
Qed.

Lemma poll_loop_completed w envs : ∀ s,
  unique_ids (jobs s) → completed_kept s (snd (poll_loop w envs s)).
Proof.
  induction envs as [|e envs IH]; intros s Hu; [by apply completed_kept_refl|].
  cbn [poll_loop]. unfold bind.
  pose proof (worker_tick_completed w e s Hu) as Ht.
  destruct (worker_tick_keeps w e s) as [_ Hu1]. specialize (Hu1 Hu).
  destruct (worker_tick w e s) as [[[]|x] s1]; try exact Ht.
  intros i x Hi Hc. apply (IH s1 Hu1); [|done]. by apply Ht.
Qed.

Lemma after_completed c s :
  unique_ids (jobs s) → runs_claimed [c] s → completed_kept s (after c s).
Proof.
  intros Hu [Hrun _]. destruct c; cbn [after].
  - rewrite enqueue_job_eq. cbn zeta.
    destruct (req_command req) as [cmd|]; [|by apply completed_kept_refl].
    destruct (forallb is_int64 _); [|by apply completed_kept_refl].
    destruct (state_of_name _) as [st|]; [|by apply completed_kept_refl].
    destruct (existsb _ (jobs s)); [by apply completed_kept_refl|].
    rewrite ensure_db_eq. intros i x Hi _. cbn [snd jobs with_jobs].
    by apply lookup_app_l_Some.
  - destruct (spawn_workers_eq count pid hex s) as (ps & ->).
    by apply completed_kept_refl.
  - rewrite stop_workers_eq. by apply completed_kept_refl.
  - apply completed_kept_refl. unfold status_cmd. unfold bind at 1.
    rewrite ensure_db_eq. unfold bind, get. by destruct (_ !! _).
  - rewrite list_jobs_eq. cbn zeta. apply completed_kept_refl. by destruct (is_int64 _).
  - rewrite dlq_list_eq. cbn zeta. apply completed_kept_refl. by destruct (is_int64 _).
  - rewrite dlq_retry_eq. cbn zeta.
    destruct (List.find _ _) as [d|] eqn:Hfind; [|by apply completed_kept_refl].
    eapply completed_kept_update; [by rewrite ensure_db_eq|].
    intros x Hx Hc. destruct (has_id (Some job_id) x) eqn:Hid; [|done].
    destruct (find_dead_rows _ _ _ Hu Hfind x Hx Hid) as [_ Hdead]. congruence.
  - by apply completed_kept_refl.
  - apply completed_kept_refl. unfold config_get. unfold bind at 1.
    rewrite ensure_db_eq. destruct key as [[|c k]|]; try done.
    unfold get_config, bind, get. by destruct (_ !! _).
  - unfold worker_loop. unfold bind at 1. rewrite ensure_db_eq.
    unfold bind at 1. unfold modify at 1.
    intros i x Hi Hc. by apply poll_loop_completed.
  - apply acquire_job_completed.
  - destruct Hrun as (row & Hrow & Hst). by eapply run_job_completed.
  - by apply completed_kept_refl.
Qed.



(** ** Worker ids *)

Lemma py_str_inj n m : py_str n = py_str m → n = m.
Proof.
  unfold py_str. intros H.
  assert (∀ z, NilZero.int_of_string (NilZero.string_of_int (Z.to_int z))
               = Some (Z.to_int z)) as Hisi.
  { intros z. apply NilZero.isi; destruct z; simpl; try discriminate;
      intros [= Hnil]; by apply Unsigned.to_uint_nonnil in Hnil. }
  pose proof (Hisi n) as Hn. rewrite H, Hisi in Hn. injection Hn as Hn.
  by rewrite <- (DecimalZ.of_to n), <- (DecimalZ.of_to m), Hn.
Qed.

Lemma no_hyphen_uint d : no_hyphen (NilEmpty.string_of_uint d) = true.
Proof. induction d; simpl; auto. Qed.

Lemma py_str_no_hyphen n : 0 ≤ n → no_hyphen (py_str n) = true.
Proof.
  intros Hn. unfold py_str. destruct n as [|p|p]; [done| |lia].
  simpl. destruct (Pos.to_uint p) eqn:Hp; try apply no_hyphen_uint.
  by apply Unsigned.to_uint_nonnil in Hp.
Qed.

Lemma hyphen_split s1 : ∀ s2 t1 t2,
  no_hyphen s1 = true → no_hyphen s2 = true →
  s1 ++ String "-" t1 = s2 ++ String "-" t2 → s1 = s2.
Proof.
  induction s1 as [|c s1 IH]; intros [|c' s2] t1 t2 H1 H2 Heq; simpl in *.
  - done.
  - injection Heq as <- _. by rewrite Ascii.eqb_refl in H2.
  - injection Heq as -> _. by rewrite Ascii.eqb_refl in H1.
  - injection Heq as -> Heq. f_equal.
    apply andb_true_iff in H1 as [_ H1]. apply andb_true_iff in H2 as [_ H2].
    by apply (IH s2 t1 t2).
Qed.

Lemma worker_name_inj pid i i' h h' :
  0 ≤ i → 0 ≤ i' → worker_name pid i h = worker_name pid i' h' → i = i'.
Proof.
  intros Hi Hi' Heq. unfold worker_name in Heq.
  apply String.app_inj in Heq. injection Heq as Heq.
  apply py_str_inj. eapply hyphen_split; [| |exact Heq]; by apply py_str_no_hyphen.
Qed.

Lemma spawn_loop_ids pid hex n : ∀ i s,
  ∃ ps, spawn_loop pid hex i n s = (Return ps, s)
        ∧ spawned_id <$> ps
          = (λ m, worker_name pid (i + Z.of_nat m) (hex (i + Z.of_nat m))) <$> seq 0 n.
Proof.
  induction n as [|n IH]; intros i s.
  - exists []. by split.
  - destruct (IH (i + 1) s) as (ps & Hrun & Hids).
    eexists. cbn [spawn_loop]. unfold bind at 1, popen at 1.
    unfold bind at 1, get at 1, ret at 1. unfold bind at 1. rewrite Hrun.
    split; [reflexivity|]. cbn [seq]. rewrite !fmap_cons, Hids. cbn [spawned_id].
    rewrite Z.add_0_r. f_equal. rewrite <- seq_shift.
    change (map S ?l) with (S <$> l). rewrite <- list_fmap_compose.
    apply list_fmap_ext. intros _ m _. cbn.
    by replace (i + 1 + Z.of_nat m) with (i + Z.of_nat (S m)) by lia.
Qed.

(** X24.  [spawn_workers] starts [count] workers (none for a count of 0
    or less), named after the process id, the numbers 0, 1, ... and the
    first eight hex digits of a fresh uuid, and the names of one call
    are pairwise distinct whatever the uuids are.  In the store it
    changes the shutdown flag only, besides what [ensure_db] adds. *)
Theorem spawn_workers_names_are_distinct
    (count pid : Z) (hex : Z → string) (s : store) :
  ∃ ps,
    spawn_workers count pid hex s
    = (Return ps, with_control (update_value "shutdown" "0") (snd (ensure_db s)))
    ∧ spawned_id <$> ps
      = (λ m, worker_name pid (Z.of_nat m) (hex (Z.of_nat m))) <$> seq 0 (Z.to_nat count)
    ∧ NoDup (spawned_id <$> ps)
    ∧ (count ≤ 0 → ps = []).
Proof.
  unfold spawn_workers. unfold bind at 1. rewrite ensure_db_ret.
  unfold bind at 1. unfold modify at 1.
  destruct (spawn_loop_ids pid hex (Z.to_nat count) 0
              (with_control (update_value "shutdown" "0") (snd (ensure_db s))))
    as (ps & Hrun & Hids).
  exists ps. unfold bind. rewrite Hrun. split; [done|].
  split; [exact Hids|]. split.
  - rewrite Hids. apply NoDup_fmap_2_strong; [|apply NoDup_seq].
    intros m m' _ _ Heq. apply worker_name_inj in Heq; lia.
  - intros Hle. replace (Z.to_nat count) with 0%nat in Hids by lia.
    by apply fmap_nil_inv in Hids.
Qed.

Lemma spawn_workers_names_are_distinct_witness :
  ∃ ps,
    fst (spawn_workers 2 4242 (λ _, "0f8fad5b") (sample_store [])) = Return ps
    ∧ spawned_id <$> ps = ["4242-0-0f8fad5b"; "4242-1-0f8fad5b"]
    ∧ fst (spawn_workers (-1) 4242 (λ _, "0f8fad5b") (sample_store [])) = Return [].
Proof.
  destruct (spawn_workers_names_are_distinct 2 4242 (λ _, "0f8fad5b") (sample_store []))
    as (ps & Hrun & Hids & _).
  destruct (spawn_workers_names_are_distinct (-1) 4242 (λ _, "0f8fad5b")
              (sample_store []))
    as (ps0 & Hrun0 & _ & _ & Hnone).
  exists ps. split; [by rewrite Hrun|]. split; [exact Hids|].
  rewrite Hrun0. cbn [fst]. f_equal. apply Hnone. lia.
Defined.

(** ** Submission seen by the queries *)

Lemma state_of_name_name text st : state_of_name text = Some st → state_name st = text.
Proof.
  unfold state_of_name.
  destruct (String.eqb_spec text "pending") as [->|_]; [by intros [= <-]|].
  destruct (String.eqb_spec text "processing") as [->|_]; [by intros [= <-]|].
  destruct (String.eqb_spec text "completed") as [->|_]; [by intros [= <-]|].
  destruct (String.eqb_spec text "failed") as [->|_]; [by intros [= <-]|].
  destruct (String.eqb_spec text "dead") as [->|_]; [by intros [= <-]|].
  discriminate.
Qed.



(** ** A signal and a running job *)

(** X26.  A signal that reaches a worker which has claimed a job and is
    about to run it is forgotten: the handler marks the worker's row
    "stopping", but [run_job] writes "busy" and then "idle" over the
    mark, so when [run_job] has returned the row is idle, and unless a
    stop was requested through the shutdown flag the worker's next
    iteration does not leave the loop. *)
Theorem signal_before_a_job_is_forgotten
    (w : string) (now : timestamp) (j : job) (env : attempt_env)
    (s s1 : store) (r : worker) (flag : string) :
  workers s !! w = Some r →
  control s !! "shutdown" = Some flag → flag ≠ "1" →
  (handle_signal w now;; run_job w j env) s = (Return tt, s1) →
  status <$> workers (snd (handle_signal w now s)) !! w = Some Stopping
  ∧ workers s1 !! w = Some (mkWorker (started_at r) (clock_idle env) Idle None)
  ∧ ∀ e, fst (worker_tick w e s1) ≠ Return Break.
Proof.
  intros Hr Hflag Hne Hrun. unfold bind at 1 in Hrun.
  unfold handle_signal at 1, modify at 1 in Hrun.
  split.
  { unfold handle_signal, modify. cbn [snd workers with_workers].
    by rewrite lookup_alter_eq, Hr. }
  match type of Hrun with
  | run_job w j env ?s0 = _ =>
      destruct (run_job_cases w j env s0) as [[x Heq]|(f & Hf & Heq)];
        rewrite Heq in Hrun; [done|]
  end.
  injection Hrun as <-.
  assert (workers (with_workers (alter (set_idle (clock_idle env)) w)
             (with_jobs (sql_update (has_id (id j)) f)
                (with_workers (alter (set_busy (id j) (clock_start env)) w)
                   (with_workers
                      (alter (λ r0, mkWorker (started_at r0) now Stopping
                                      (current_job_id r0)) w) s)))) !! w
          = Some (mkWorker (started_at r) (clock_idle env) Idle None)) as Hrow.
  { cbn [workers with_workers with_jobs]. by rewrite !lookup_alter_eq, Hr. }
  split; [exact Hrow|].
  intros e. rewrite worker_tick_eq. cbn [control with_workers with_jobs].
  rewrite Hflag, Hrow. cbn [status is_stopping orb].
  rewrite (proj2 (String.eqb_neq flag "1")) by done.
  destruct (acquire_job _ _ _) as [[[j'|]|x] s2]; try (cbn [fst]; congruence).
  destruct (run_job w j' (attempt e) s2) as [[[]|x] s3]; cbn [fst]; congruence.
Qed.

Lemma signal_before_a_job_is_forgotten_witness :
  status
  <$> workers
        (snd ((handle_signal "w1" T1;;
               run_job "w1" (sample_job (Some "job1") Processing 0 3 0)
                 (sample_env (Exited 0 "" "")))
                (mkStore [sample_job (Some "job1") Processing 0 3 0] sample_config
                   {[ "w1" := mkWorker T0 T0 Idle None ]} {[ "shutdown" := "0" ]})))
      !! "w1"
  = Some Idle.
Proof.
  set (s := mkStore [sample_job (Some "job1") Processing 0 3 0] sample_config
              {[ "w1" := mkWorker T0 T0 Idle None ]} {[ "shutdown" := "0" ]}).
  set (s1 := snd ((handle_signal "w1" T1;;
                   run_job "w1" (sample_job (Some "job1") Processing 0 3 0)
                     (sample_env (Exited 0 "" ""))) s)).
  destruct (signal_before_a_job_is_forgotten "w1" T1
              (sample_job (Some "job1") Processing 0 3 0)
              (sample_env (Exited 0 "" "")) s s1 (mkWorker T0 T0 Idle None) "0")
    as (_ & Hrow & _).
  - reflexivity.
  - reflexivity.
  - discriminate.
  - reflexivity.
  - by rewrite Hrow.
Defined.

(** ** Retries in the worker loop *)

Lemma attempt_cycle_frame w now env s j s' :
  attempt_cycle w now env s = (Return (Some j), s') →
  control s' = control s
  ∧ ∀ row, workers s' !! w = Some row → status row = Idle.
Proof.
  unfold attempt_cycle. unfold bind at 1. rewrite acquire_job_eq.
  destruct (select_claimable now (jobs s)) as [sel|]; [|done]. cbn zeta.
  destruct (negb _); [done|].
  destruct (fetch_by_id _ _) as [got|]; [|done].
  unfold bind at 1.
  match goal with
  | |- context [run_job w got env ?s1] =>
      destruct (run_job_cases w got env s1) as [[x ->]|(f & _ & ->)]; [done|]
  end.
  unfold ret. intros [= <- <-]. cbn [control workers with_workers with_jobs].
  split; [done|]. intros row. rewrite lookup_alter_eq.
  destruct (alter _ _ _ !! w) as [r0|]; [|done]. cbn. by intros [= <-].
Qed.

Lemma worker_tick_cycle w e s flag :
  control s !! "shutdown" = Some flag → flag ≠ "1" →
  (∀ row, workers s !! w = Some row → status row ≠ Stopping) →
  worker_tick w e s
  = match attempt_cycle w (clock_claim e) (attempt e)
            (with_workers (alter (set_status Idle (clock_poll e)) w) s) with
    | (Return _, s') => (Return Continue, s')
    | (Raise x, s') => (Raise x, s')
    end.
Proof.
  intros Hflag Hne Hrow. rewrite worker_tick_eq, Hflag.
  rewrite (proj2 (String.eqb_neq flag "1")) by done.
  assert (is_stopping match workers s !! w with
                      | Some r => status r
                      | None => Stopped
                      end = false) as ->.
  { destruct (workers s !! w) as [row|]; [|done].
    specialize (Hrow row eq_refl). by destruct (status row). }
  cbn [orb]. unfold attempt_cycle. unfold bind at 1.
  destruct (acquire_job _ _ _) as [[[j|]|x] s2]; try done.
  unfold bind, ret. by destruct (run_job w j (attempt e) s2) as [[[]|x] s3].
Qed.

Lemma poll_loop_failing w k b r t n next envs :
  failing_run b r n next envs →
  ∀ ticks s j flag,
    envs = (λ e, (clock_claim e, attempt e)) <$> ticks →
    holds_job k b r t s j → attempts j = n → next_run_at j = next →
    claimable (state j) = true →
    control s !! "shutdown" = Some flag → flag ≠ "1" →
    (∀ row, workers s !! w = Some row → status row ≠ Stopping) →
    ∃ s' j',
      poll_loop w ticks s = (Return Continue, s')
      ∧ holds_job k b r t s' j'
      ∧ attempts j' = n + Z.of_nat (length ticks)
      ∧ (ticks ≠ [] → state j' = if r <? attempts j' then Dead else Failed)
      ∧ n + Z.of_nat (length ticks) ≤ Z.max (n + 1) (r + 1).
Proof.
  induction 1 as [n next|n next now env rest rc out err Hdue Hchild Hrc Hint Hle Hrep _ IH
                 |n next now env rc out err Hdue Hchild Hrc Hint Hlt];
    intros ticks s j flag Henvs Hs Hn Hnext Hcl Hflag Hne Hrow.
  - symmetry in Henvs. apply fmap_nil_inv in Henvs as ->.
    exists s, j. cbn [poll_loop length].
    split; [done|]. split; [done|]. split; [lia|]. split; [done|lia].
  - destruct ticks as [|e ticks]; [done|]. rewrite fmap_cons in Henvs.
    injection Henvs as -> -> Hrest.
    set (s0 := with_workers (alter (set_status Idle (clock_poll e)) w) s).
    assert (holds_job k b r t s0 j) as Hs0 by done.
    assert (eligible (clock_claim e) j = true) as He.
    { unfold eligible, due. rewrite Hcl, Hnext. simpl.
      destruct next as [t0|]; [|done]. specialize (Hdue t0 eq_refl). lia. }
    destruct (attempt_cycle_fails w k b r t s0 j (clock_claim e) (attempt e) rc out err
                Hs0 He Hchild Hrc)
      as (s1 & j1 & Hrun & Hs1 & Hn1 & Hst1); rewrite ?Hn; [done|done|].
    rewrite Hn in Hn1, Hst1.
    destruct (Z.ltb_spec r (n + 1)) as [?|_]; [lia|]. destruct Hst1 as [Hst1 Hnext1].
    destruct (attempt_cycle_frame _ _ _ _ _ _ Hrun) as [Hctl Hidle].
    destruct (IH ticks s1 j1 flag Hrest Hs1 Hn1 Hnext1)
      as (s' & j' & Hloop & Hs' & Hn' & Hst' & Hbound); try done.
    { by rewrite Hst1. }
    { by rewrite Hctl. }
    { intros row Hr. by rewrite (Hidle row Hr). }
    exists s', j'. split.
    { cbn [poll_loop]. unfold bind.
      rewrite (worker_tick_cycle w e s flag Hflag Hne Hrow). fold s0.
      by rewrite Hrun. }
    split; [done|]. split; [rewrite Hn'; simpl length; lia|].
    split.
    + intros _. destruct ticks as [|e' ticks]; [|by apply Hst'].
      cbn [poll_loop] in Hloop. injection Hloop as <-.
      destruct Hs' as (Hj' & _), Hs1 as (Hj1 & _).
      rewrite Hj1 in Hj'. injection Hj' as <-.
      rewrite Hn1. destruct (Z.ltb_spec r (n + 1)); [lia|done].
    + simpl length. lia.
  - destruct ticks as [|e [|e' ticks]]; [done| |done]. cbn in Henvs.
    injection Henvs as -> ->.
    set (s0 := with_workers (alter (set_status Idle (clock_poll e)) w) s).
    assert (holds_job k b r t s0 j) as Hs0 by done.
    assert (eligible (clock_claim e) j = true) as He.
    { unfold eligible, due. rewrite Hcl, Hnext. simpl.
      destruct next as [t0|]; [|done]. specialize (Hdue t0 eq_refl). lia. }
    destruct (attempt_cycle_fails w k b r t s0 j (clock_claim e) (attempt e) rc out err
                Hs0 He Hchild Hrc)
      as (s1 & j1 & Hrun & Hs1 & Hn1 & Hst1); rewrite ?Hn; [done|lia|].
    rewrite Hn in Hn1, Hst1.
    exists s1, j1. split.
    { cbn [poll_loop]. unfold bind.
      rewrite (worker_tick_cycle w e s flag Hflag Hne Hrow). fold s0.
      by rewrite Hrun. }
    split; [done|]. split; [simpl length; lia|].
    split; [|simpl length; lia].
    intros _. rewrite Hn1. destruct (Z.ltb_spec r (n + 1)); [done|lia].
Qed.

(** X12.  Where every retry instant is a representable datetime, the
    worker loop brings a job that fails every time to the dead-letter
    queue after exactly [r + 1] attempts.  A worker that finds the one
    job of the table with no attempts and, unless a stop is requested,
    runs it whenever it is due, each time with an exit code other than
    0, goes on polling; the attempts counted are the iterations made,
    at most [r + 1]; the job is failed after each of the first [r] and
    dead after attempt [r + 1], when no claim returns it any more. *)
Theorem dead_after_exhausting_retries
    (w k : string) (b r t : Z) (started seen : timestamp) (ticks : list tick_env)
    (s : store) (j : job) :
  0 ≤ r →
  holds_job k b r t s j → attempts j = 0 → state j = Pending → next_run_at j = None →
  control s !! "shutdown" ≠ Some "1" →
  failing_run b r 0 None ((λ e, (clock_claim e, attempt e)) <$> ticks) →
  ∃ s' j',
    worker_loop w started seen ticks s = (Return Continue, s')
    ∧ jobs s' = [j']
    ∧ attempts j' = Z.of_nat (length ticks)
    ∧ Z.of_nat (length ticks) ≤ r + 1
    ∧ (0 < Z.of_nat (length ticks) ≤ r → state j' = Failed)
    ∧ (Z.of_nat (length ticks) = r + 1 →
       state j' = Dead ∧ ∀ w' now, acquire_job w' now s' = (Return None, s')).
Proof.
  intros Hr Hs Hn Hst Hnext Hflag Hrun.
  unfold worker_loop. unfold bind at 1. rewrite ensure_db_ret.
  unfold bind at 1. unfold modify at 1.
  set (s0 := with_workers _ (snd (ensure_db s))).
  assert (holds_job k b r t s0 j) as Hs0.
  { destruct Hs as (Hjobs & Hid & Hmax & Hnul & (bt & Hb & Hbv) & (tt' & Ht & Htv)).
    unfold holds_job. split; [done|]. do 3 (split; [done|]). split.
    - exists bt. split; [|done]. unfold s0. cbn [config with_workers].
      by rewrite ensure_db_config, Hb.
    - exists tt'. split; [|done]. unfold s0. cbn [config with_workers].
      by rewrite ensure_db_config, Ht. }
  assert (control s0 !! "shutdown" = Some (default "0" (control s !! "shutdown")))
    as Hflag0.
  { unfold s0. cbn [control with_workers]. apply ensure_db_control. }
  destruct (poll_loop_failing w k b r t 0 None _ Hrun ticks s0 j
              (default "0" (control s !! "shutdown")) eq_refl Hs0 Hn Hnext)
    as (s' & j' & Hloop & Hs' & Hn' & Hst' & Hbound).
  { by rewrite Hst. }
  { exact Hflag0. }
  { destruct (control s !! "shutdown") as [flag|]; [|done]. cbn. congruence. }
  { intros row. unfold s0. cbn [workers with_workers]. rewrite lookup_insert_eq.
    by intros [= <-]. }
  exists s', j'. split; [done|]. destruct Hs' as (Hjobs & _).
  split; [done|]. split; [lia|]. split; [lia|].
  assert (ticks ≠ [] → state j' = if r <? attempts j' then Dead else Failed) as Hstate
    by done.
  split.
  - intros Hlen. rewrite Hstate by (destruct ticks; [simpl in Hlen; lia|done]).
    destruct (Z.ltb_spec r (attempts j')); [lia|done].
  - intros Hlen. assert (state j' = Dead) as Hdead.
    { rewrite Hstate by (destruct ticks; [simpl in Hlen; lia|done]).
      destruct (Z.ltb_spec r (attempts j')); [done|lia]. }
    split; [done|]. intros w' now. rewrite acquire_job_eq, Hjobs.
    unfold select_claimable, eligible. cbn [List.filter]. by rewrite Hdead.
Qed.

Lemma dead_after_exhausting_retries_witness :
  ∃ s' j',
    worker_loop "w1" T0 T0
      [mkTick T1 T1 (sample_env (Exited 1 "" ""));
       mkTick (T1 + 10 * US_PER_SECOND) (T1 + 10 * US_PER_SECOND)
         (sample_env (Exited 1 "" ""))]
      (sample_store [sample_job (Some "job1") Pending 0 1 0])
    = (Return Continue, s')
    ∧ jobs s' = [j'] ∧ attempts j' = 2 ∧ state j' = Dead.
Proof.
  destruct (dead_after_exhausting_retries "w1" "job1" 2 1 0 T0 T0
              [mkTick T1 T1 (sample_env (Exited 1 "" ""));
               mkTick (T1 + 10 * US_PER_SECOND) (T1 + 10 * US_PER_SECOND)
                 (sample_env (Exited 1 "" ""))]
              (sample_store [sample_job (Some "job1") Pending 0 1 0])
              (sample_job (Some "job1") Pending 0 1 0))
    as (s' & j' & Hrun & Hjobs & Hn & _ & _ & Hdead); try done.
  - unfold holds_job. repeat split; try done; by eexists.
  - eapply failing_retry; try done.
    eapply failing_last; try done.
    intros t [= <-]. by vm_compute.
  - exists s', j'. repeat split; try done. by apply Hdead.
Defined.
